(** * stormcastrs: weather-station ingestion into Prometheus gauges

    A shallow embedding of [src/main.rs]: the [round] utility, the serde
    decoding of the query parameters into [WeatherData], the gauge registry
    built by [Metrics::new], [Metrics::update] and the [/push/] handler.

    Floating point is IEEE 754 as specified by [SpecFloat]: Rust's [f32] is
    binary32 ([prec = 24], [emax = 128]) and [f64] is binary64
    ([prec = 53], [emax = 1024]); every arithmetic operation rounds to
    nearest, ties to even, as the hardware does. *)

From Stdlib Require Import ZArith List String Ascii Bool Lia Permutation.
From Stdlib Require Import Floats.SpecFloat.
Import ListNotations.
Open Scope string_scope.
Open Scope Z_scope.

(** ** Results (Rust's [Result<T, E>]) *)

Inductive result (E A : Type) : Type :=
| Ok (a : A)
| Err (e : E).
Arguments Ok {E A} a.
Arguments Err {E A} e.

Definition bind {E A B} (r : result E A) (k : A -> result E B) : result E B :=
  match r with
  | Ok a => k a
  | Err e => Err e
  end.

Notation "x <- r ;; k" := (bind r (fun x => k))
  (at level 61, r at next level, right associativity).

(** ** Floating point *)

Definition f32 := spec_float.
Definition f64 := spec_float.

Definition prec32 : Z := 24.
Definition emax32 : Z := 128.
Definition prec64 : Z := 53.
Definition emax64 : Z := 1024.

Definition f64_mul : f64 -> f64 -> f64 := SFmul prec64 emax64.
Definition f64_div : f64 -> f64 -> f64 := SFdiv prec64 emax64.

(** An integer as an [f64]; exact for the integers used here. *)
Definition f64_of_Z (n : Z) : f64 := binary_normalize prec64 emax64 n 0 false.

Definition f64_zero : f64 := S754_zero false.
Definition f64_one : f64 := f64_of_Z 1.
Definition f64_ten : f64 := f64_of_Z 10.

(** [f64::from(v)] for [v : u8] or [v : u16]: the exact value. *)
Definition f64_from_uint (n : Z) : f64 := f64_of_Z n.

(** [f64::from(v)] for [v : f32]: widening, which is exact. *)
Definition f64_from_f32 (x : f32) : f64 :=
  match x with
  | S754_finite s m e => binary_round prec64 emax64 s m e
  | S754_zero s => S754_zero s
  | S754_infinity s => S754_infinity s
  | S754_nan => S754_nan
  end.

(** [f64::powi], lowered to compiler-rt's [__powidf2]:
    [r = 1; loop { if b & 1 { r *= a }; b /= 2; if b == 0 { break }; a *= a }]
    and [1 / r] for a negative exponent.  An [i32] exponent needs at most
    32 rounds. *)
Fixpoint powi_loop (fuel : nat) (a r : f64) (b : Z) : f64 :=
  match fuel with
  | O => r
  | S fuel' =>
      let r := if Z.odd b then f64_mul r a else r in
      let b := Z.quot b 2 in
      if b =? 0 then r else powi_loop fuel' (f64_mul a a) r b
  end.

Definition f64_powi (a : f64) (b : Z) : f64 :=
  let r := powi_loop 32 a f64_one b in
  if b <? 0 then f64_div f64_one r else r.

(** Magnitude of [m * 2^(-k)] rounded to the nearest integer, halfway
    cases upwards: [floor((m + 2^(k-1)) / 2^k)]. *)
Definition round_half_up_mag (m : Z) (k : Z) : Z :=
  Z.shiftr (m + Z.shiftl 1 (k - 1)) k.

(** [f64::round]: to the nearest integer, halfway cases away from zero; the
    sign is kept (so [-0.3] rounds to [-0.0]). *)
Definition f64_round (x : f64) : f64 :=
  match x with
  | S754_finite s m (Zneg k) =>
      binary_normalize prec64 emax64
        (cond_Zopp s (round_half_up_mag (Zpos m) (Zpos k))) 0 s
  | _ => x
  end.

(** [fn round(value: f32, decimals: u8) -> f64]
    [let factor = 10_f64.powi(i32::from(decimals));]
    [(f64::from(value) * factor).round() / factor] *)
Definition round (value : f32) (decimals : Z) : f64 :=
  let factor := f64_powi f64_ten decimals in
  f64_div (f64_round (f64_mul (f64_from_f32 value) factor)) factor.

(** ** Parsing numbers from text ([core::str::FromStr])

    Strings are Rocq strings of bytes.  [is_digit] and [digit_val] read an
    ASCII decimal digit. *)

Definition is_digit (c : ascii) : bool :=
  let n := nat_of_ascii c in ((48 <=? n)%nat && (n <=? 57)%nat)%bool.

Definition digit_val (c : ascii) : Z := Z.of_nat (nat_of_ascii c) - 48.

Definition lower_ascii (c : ascii) : ascii :=
  let n := nat_of_ascii c in
  if ((65 <=? n)%nat && (n <=? 90)%nat)%bool then ascii_of_nat (n + 32) else c.

Fixpoint lower (s : string) : string :=
  match s with
  | EmptyString => EmptyString
  | String c s' => String (lower_ascii c) (lower s')
  end.

(** A run of decimal digits: accumulated value, digit count, remaining text. *)
Fixpoint take_digits (s : string) (acc n : Z) : Z * Z * string :=
  match s with
  | String c s' =>
      if is_digit c then take_digits s' (acc * 10 + digit_val c) (n + 1)
      else (acc, n, s)
  | EmptyString => (acc, n, s)
  end.

(** The exponent part [('e' | 'E') Sign? Digit+], or nothing. *)
Definition parse_exp (s : string) : option Z :=
  match s with
  | EmptyString => Some 0
  | String c r =>
      if (Ascii.eqb c "e"%char || Ascii.eqb c "E"%char)%bool then
        let '(neg, r') :=
          match r with
          | String "-"%char r' => (true, r')
          | String "+"%char r' => (false, r')
          | _ => (false, r)
          end in
        match take_digits r' 0 0 with
        | (v, n, EmptyString) => if 0 <? n then Some (if neg then - v else v) else None
        | _ => None
        end
      else None
  end.

(** [Number ::= (Digit+ | Digit+ '.' Digit* | Digit* '.' Digit+) Exp?]
    read as the decimal [m * 10^e]. *)
Definition parse_number (s : string) : option (Z * Z) :=
  let '(m1, n1, r1) := take_digits s 0 0 in
  let '(m2, n2, r2) :=
    match r1 with
    | String "."%char r => take_digits r m1 0
    | _ => (m1, 0, r1)
    end in
  if n1 + n2 =? 0 then None
  else match parse_exp r2 with
       | Some x => Some (m2, x - n2)
       | None => None
       end.

(** The float nearest to [(-1)^neg * m * 10^e10], ties to even (Rust's
    [dec2flt] rounds correctly). *)
Definition decimal_to_float (prec emax : Z) (neg : bool) (m e10 : Z) : spec_float :=
  if m =? 0 then S754_zero neg
  else if 0 <=? e10 then binary_normalize prec emax (cond_Zopp neg (m * 10 ^ e10)) 0 neg
  else let '(q, e, l) := SFdiv_core_binary prec emax m 0 (10 ^ (- e10)) 0 in
       binary_round_aux prec emax neg q e l.

(** [f32::from_str] / [f64::from_str], with their error messages
    ([ParseFloatError]'s [Display]). *)
Definition err_float_empty : string := "cannot parse float from empty string".
Definition err_float_invalid : string := "invalid float literal".

Definition parse_float (prec emax : Z) (s : string) : result string spec_float :=
  match s with
  | EmptyString => Err err_float_empty
  | _ =>
      let '(neg, body) :=
        match s with
        | String "+"%char r => (false, r)
        | String "-"%char r => (true, r)
        | _ => (false, s)
        end in
      let b := lower body in
      if (String.eqb b "inf" || String.eqb b "infinity")%bool then Ok (S754_infinity neg)
      else if String.eqb b "nan" then Ok S754_nan
      else match parse_number body with
           | Some (m, e) => Ok (decimal_to_float prec emax neg m e)
           | None => Err err_float_invalid
           end
  end.

Definition parse_f32 : string -> result string f32 := parse_float prec32 emax32.
Definition parse_f64 : string -> result string f64 := parse_float prec64 emax64.

(** A float literal of the source, as the compiler reads it. *)
Definition lit (r : result string spec_float) : spec_float :=
  match r with Ok x => x | Err _ => S754_nan end.
Definition f32_lit (s : string) : f32 := lit (parse_f32 s).
Definition f64_lit (s : string) : f64 := lit (parse_f64 s).

(** [u8::from_str] / [u16::from_str] ([from_str_radix] with radix 10):
    an optional [+], then digits; at each digit the digit is checked first,
    then [checked_mul(10)] and [checked_add]. [max] is [T::MAX]. *)
Definition err_int_empty : string := "cannot parse integer from empty string".
Definition err_int_digit : string := "invalid digit found in string".
Definition err_int_overflow : string := "number too large to fit in target type".

Fixpoint uint_digits (max acc : Z) (s : string) : result string Z :=
  match s with
  | EmptyString => Ok acc
  | String c s' =>
      if negb (is_digit c) then Err err_int_digit
      else if max <? acc * 10 then Err err_int_overflow
      else if max <? acc * 10 + digit_val c then Err err_int_overflow
      else uint_digits max (acc * 10 + digit_val c) s'
  end.

(** [match src[0] { b'+' | b'-' if src[1..].is_empty() => InvalidDigit,
    b'+' => &src[1..], _ => src }] (an unsigned type keeps a leading [-],
    which then is an invalid digit). *)
Definition parse_uint (max : Z) (s : string) : result string Z :=
  match s with
  | EmptyString => Err err_int_empty
  | String c r =>
      if ((Ascii.eqb c "+"%char || Ascii.eqb c "-"%char) && String.eqb r EmptyString)%bool
      then Err err_int_digit
      else if Ascii.eqb c "+"%char then uint_digits max 0 r
      else uint_digits max 0 s
  end.

Definition u8_max : Z := 255.
Definition u16_max : Z := 65535.

(** ** The weather data model ([struct WeatherData]) *)

Module WeatherData.

(** The 21 typed fields, all optional; [u8] and [u16] values are kept as
    [Z] (the parser only produces values in their range).  [extra] is the
    [#[serde(flatten)]] catch-all [HashMap<String, serde_json::Value>]: a
    value [serde_json::Value::String v] is kept as [v], and the map is an
    association list in which an insertion replaces an earlier entry. *)
Record t : Type := mk {
  tempf : option f32;
  humidity : option Z;
  windspeedmph : option f32;
  windgustmph : option f32;
  maxdailygust : option f32;
  winddir : option Z;
  winddir_avg10m : option Z;
  uv : option Z;
  solarradiation : option f32;
  hourlyrainin : option f32;
  eventrainin : option f32;
  dailyrainin : option f32;
  weeklyrainin : option f32;
  monthlyrainin : option f32;
  yearlyrainin : option f32;
  tempinf : option f32;
  humidityin : option Z;
  baromrelin : option f32;
  baromabsin : option f32;
  battout : option Z;
  battin : option Z;
  extra : list (string * string)
}.

(** [WeatherData::default()]. *)
Definition default : t :=
  mk None None None None None None None None None None None None None None
     None None None None None None None [].

End WeatherData.

Import WeatherData.

(** Serde's field identifier ([enum __Field]) of [WeatherData]. *)
Inductive Field : Type :=
| F_tempf | F_humidity | F_windspeedmph | F_windgustmph | F_maxdailygust
| F_winddir | F_winddir_avg10m | F_uv | F_solarradiation
| F_hourlyrainin | F_eventrainin | F_dailyrainin | F_weeklyrainin
| F_monthlyrainin | F_yearlyrainin
| F_tempinf | F_humidityin | F_baromrelin | F_baromabsin
| F_battout | F_battin.

Definition field_name (f : Field) : string :=
  match f with
  | F_tempf => "tempf" | F_humidity => "humidity"
  | F_windspeedmph => "windspeedmph" | F_windgustmph => "windgustmph"
  | F_maxdailygust => "maxdailygust" | F_winddir => "winddir"
  | F_winddir_avg10m => "winddir_avg10m" | F_uv => "uv"
  | F_solarradiation => "solarradiation" | F_hourlyrainin => "hourlyrainin"
  | F_eventrainin => "eventrainin" | F_dailyrainin => "dailyrainin"
  | F_weeklyrainin => "weeklyrainin" | F_monthlyrainin => "monthlyrainin"
  | F_yearlyrainin => "yearlyrainin" | F_tempinf => "tempinf"
  | F_humidityin => "humidityin" | F_baromrelin => "baromrelin"
  | F_baromabsin => "baromabsin" | F_battout => "battout"
  | F_battin => "battin"
  end.

Definition all_fields : list Field :=
  [F_tempf; F_humidity; F_windspeedmph; F_windgustmph; F_maxdailygust;
   F_winddir; F_winddir_avg10m; F_uv; F_solarradiation;
   F_hourlyrainin; F_eventrainin; F_dailyrainin; F_weeklyrainin;
   F_monthlyrainin; F_yearlyrainin;
   F_tempinf; F_humidityin; F_baromrelin; F_baromabsin;
   F_battout; F_battin].

(** The generated [visit_str] of [__Field]: a recognised key, or [__other]. *)
Definition field_of_key (k : string) : option Field :=
  find (fun f => String.eqb (field_name f) k) all_fields.

Definition recognized (k : string) : bool :=
  match field_of_key k with Some _ => true | None => false end.

(** The declared type of a field. *)
Inductive Kind : Type := K_f32 | K_u8 | K_u16.

Definition field_kind (f : Field) : Kind :=
  match f with
  | F_humidity | F_uv | F_humidityin | F_battout | F_battin => K_u8
  | F_winddir | F_winddir_avg10m => K_u16
  | _ => K_f32
  end.

Inductive Value : Type := VFloat (x : f32) | VInt (n : Z).

(** [Part::deserialize_f32 / _u8 / _u16] of [serde_urlencoded]:
    [self.0.parse::<T>()], the error turned into [de::Error::custom(e)]. *)
Definition parse_value (k : Kind) (v : string) : result string Value :=
  match k with
  | K_f32 => x <- parse_f32 v ;; Ok (VFloat x)
  | K_u8 => n <- parse_uint u8_max v ;; Ok (VInt n)
  | K_u16 => n <- parse_uint u16_max v ;; Ok (VInt n)
  end.

Scheme Equality for Field.

(** The slot of a field in the struct being built. *)
Definition get_slot (f : Field) (w : WeatherData.t) : option Value :=
  match f with
  | F_tempf => option_map VFloat (tempf w)
  | F_humidity => option_map VInt (humidity w)
  | F_windspeedmph => option_map VFloat (windspeedmph w)
  | F_windgustmph => option_map VFloat (windgustmph w)
  | F_maxdailygust => option_map VFloat (maxdailygust w)
  | F_winddir => option_map VInt (winddir w)
  | F_winddir_avg10m => option_map VInt (winddir_avg10m w)
  | F_uv => option_map VInt (uv w)
  | F_solarradiation => option_map VFloat (solarradiation w)
  | F_hourlyrainin => option_map VFloat (hourlyrainin w)
  | F_eventrainin => option_map VFloat (eventrainin w)
  | F_dailyrainin => option_map VFloat (dailyrainin w)
  | F_weeklyrainin => option_map VFloat (weeklyrainin w)
  | F_monthlyrainin => option_map VFloat (monthlyrainin w)
  | F_yearlyrainin => option_map VFloat (yearlyrainin w)
  | F_tempinf => option_map VFloat (tempinf w)
  | F_humidityin => option_map VInt (humidityin w)
  | F_baromrelin => option_map VFloat (baromrelin w)
  | F_baromabsin => option_map VFloat (baromabsin w)
  | F_battout => option_map VInt (battout w)
  | F_battin => option_map VInt (battin w)
  end.

Definition put_f (f g : Field) (x : Value) (old : option f32) : option f32 :=
  if Field_beq f g then match x with VFloat y => Some y | VInt _ => old end else old.
Definition put_i (f g : Field) (x : Value) (old : option Z) : option Z :=
  if Field_beq f g then match x with VInt n => Some n | VFloat _ => old end else old.

(** [__fieldN = Some(value)] for the field [f]. *)
Definition set_slot (f : Field) (x : Value) (w : WeatherData.t) : WeatherData.t :=
  mk (put_f f F_tempf x (tempf w))
     (put_i f F_humidity x (humidity w))
     (put_f f F_windspeedmph x (windspeedmph w))
     (put_f f F_windgustmph x (windgustmph w))
     (put_f f F_maxdailygust x (maxdailygust w))
     (put_i f F_winddir x (winddir w))
     (put_i f F_winddir_avg10m x (winddir_avg10m w))
     (put_i f F_uv x (uv w))
     (put_f f F_solarradiation x (solarradiation w))
     (put_f f F_hourlyrainin x (hourlyrainin w))
     (put_f f F_eventrainin x (eventrainin w))
     (put_f f F_dailyrainin x (dailyrainin w))
     (put_f f F_weeklyrainin x (weeklyrainin w))
     (put_f f F_monthlyrainin x (monthlyrainin w))
     (put_f f F_yearlyrainin x (yearlyrainin w))
     (put_f f F_tempinf x (tempinf w))
     (put_i f F_humidityin x (humidityin w))
     (put_f f F_baromrelin x (baromrelin w))
     (put_f f F_baromabsin x (baromabsin w))
     (put_i f F_battout x (battout w))
     (put_i f F_battin x (battin w))
     (extra w).

Definition with_extra (e : list (string * string)) (w : WeatherData.t) : WeatherData.t :=
  mk (tempf w) (humidity w) (windspeedmph w) (windgustmph w) (maxdailygust w)
     (winddir w) (winddir_avg10m w) (uv w) (solarradiation w)
     (hourlyrainin w) (eventrainin w) (dailyrainin w) (weeklyrainin w)
     (monthlyrainin w) (yearlyrainin w)
     (tempinf w) (humidityin w) (baromrelin w) (baromabsin w)
     (battout w) (battin w) e.

(** [HashMap::insert] on the association list. *)
Definition hm_insert (k v : string) (m : list (string * string)) : list (string * string) :=
  (k, v) :: filter (fun p => negb (String.eqb (fst p) k)) m.

Definition duplicate_field (name : string) : string :=
  "duplicate field `" ++ name ++ "`".

(** The derived [visit_map] of [WeatherData] (a struct with a flattened
    field): each key is a recognised field, whose value is parsed at the
    field's type (a second occurrence is [duplicate_field]), or an
    [__other] key, whose value goes to [extra].  Fields never seen stay
    [None] ([missing_field] of an [Option] is [None]). *)
Fixpoint visit_map (l : list (string * string)) (w : WeatherData.t)
  : result string WeatherData.t :=
  match l with
  | [] => Ok w
  | (k, v) :: l' =>
      match field_of_key k with
      | Some f =>
          match get_slot f w with
          | Some _ => Err (duplicate_field (field_name f))
          | None => x <- parse_value (field_kind f) v ;; visit_map l' (set_slot f x w)
          end
      | None => visit_map l' (with_extra (hm_insert k v (extra w)) w)
      end
  end.

(** [serde_urlencoded::from_str] once the query has been split into pairs. *)
Definition from_pairs (l : list (string * string)) : result string WeatherData.t :=
  visit_map l WeatherData.default.

(** ** [application/x-www-form-urlencoded] ([form_urlencoded]) *)

Definition hex_val (c : ascii) : option Z :=
  let n := Z.of_nat (nat_of_ascii c) in
  if (48 <=? n) && (n <=? 57) then Some (n - 48)
  else if (65 <=? n) && (n <=? 70) then Some (n - 55)
  else if (97 <=? n) && (n <=? 102) then Some (n - 87)
  else None.

(** [percent_decode]: [%XY] with two hex digits is the byte [0xXY]; any
    other [%] is kept. *)
Fixpoint percent_decode (s : string) : string :=
  match s with
  | EmptyString => EmptyString
  | String c s' =>
      if Ascii.eqb c "%"%char then
        match s' with
        | String h (String l r) =>
            match hex_val h, hex_val l with
            | Some a, Some b => String (ascii_of_nat (Z.to_nat (16 * a + b))) (percent_decode r)
            | _, _ => String c (percent_decode s')
            end
        | _ => String c (percent_decode s')
        end
      else String c (percent_decode s')
  end.

Fixpoint replace_plus (s : string) : string :=
  match s with
  | EmptyString => EmptyString
  | String c s' => String (if Ascii.eqb c "+"%char then " "%char else c) (replace_plus s')
  end.

(** [decode]: [+] is a space, then percent-decoding.  The bytes are kept
    as they are ([String::from_utf8_lossy] only touches invalid UTF-8). *)
Definition decode_part (s : string) : string := percent_decode (replace_plus s).

Fixpoint split_by (sep : ascii) (s : string) : list string :=
  match s with
  | EmptyString => [EmptyString]
  | String c s' =>
      if Ascii.eqb c sep then EmptyString :: split_by sep s'
      else match split_by sep s' with
           | p :: ps => String c p :: ps
           | [] => [String c EmptyString]
           end
  end.

Fixpoint split_first (sep : ascii) (s : string) : string * string :=
  match s with
  | EmptyString => (EmptyString, EmptyString)
  | String c s' =>
      if Ascii.eqb c sep then (EmptyString, s')
      else let '(a, b) := split_first sep s' in (String c a, b)
  end.

(** [form_urlencoded::parse]: the non-empty [&]-separated sequences, each
    split at its first [=] (no [=]: the value is empty). *)
Definition form_parse (s : string) : list (string * string) :=
  map (fun p => let '(k, v) := split_first "="%char p in (decode_part k, decode_part v))
      (filter (fun p => negb (String.eqb p EmptyString)) (split_by "&"%char s)).

(** [serde_urlencoded::from_str::<WeatherData>]. *)
Definition from_str (s : string) : result string WeatherData.t := from_pairs (form_parse s).

Definition hex_upper (n : Z) : ascii :=
  ascii_of_nat (Z.to_nat (if n <? 10 then 48 + n else 55 + n)).

Definition is_alnum (c : ascii) : bool :=
  let n := nat_of_ascii c in
  ((48 <=? n)%nat && (n <=? 57)%nat || (65 <=? n)%nat && (n <=? 90)%nat
   || (97 <=? n)%nat && (n <=? 122)%nat)%bool.

(** [form_urlencoded::byte_serialize]. *)
Fixpoint byte_serialize (s : string) : string :=
  match s with
  | EmptyString => EmptyString
  | String c s' =>
      let n := Z.of_nat (nat_of_ascii c) in
      if Ascii.eqb c " "%char then String "+"%char (byte_serialize s')
      else if (is_alnum c || Ascii.eqb c "*"%char || Ascii.eqb c "-"%char
               || Ascii.eqb c "."%char || Ascii.eqb c "_"%char)%bool
      then String c (byte_serialize s')
      else String "%"%char (String (hex_upper (n / 16)) (String (hex_upper (n mod 16))
             (byte_serialize s')))
  end.

(** [serde_urlencoded::to_string] of a [HashMap<String, String>], the pairs
    in the map's iteration order.  It cannot fail for string pairs. *)
Definition to_string (l : list (string * string)) : string :=
  String.concat "&" (map (fun '(k, v) => byte_serialize k ++ "=" ++ byte_serialize v) l).

(** ** Errors ([enum AppError]) *)

(** [prometheus::Error], as far as gauge creation and registration go. *)
Inductive PromError : Type :=
| AlreadyReg
| Msg (s : string).

Definition prom_error_display (e : PromError) : string :=
  match e with
  | AlreadyReg => "Duplicate metrics collector registration attempted"
  | Msg s => s
  end.

(** [serde_urlencoded::de::Error] (a [serde::de::value::Error]) and
    [ser::Error] are their messages. *)
Inductive AppError : Type :=
| ParseError (e : string)
| SerializeError (e : string)
| MetricsEncodeError (e : PromError)
| MetricRegistrationError (name : string) (source : PromError)
| ServerError (e : string).

(** The [#[error(...)]] formats ([Display]). *)
Definition app_error_display (e : AppError) : string :=
  match e with
  | ParseError s => "failed to parse weather data: " ++ s
  | SerializeError s => "failed to serialize query params: " ++ s
  | MetricsEncodeError p => "failed to encode metrics: " ++ prom_error_display p
  | MetricRegistrationError name p =>
      "failed to register metric '" ++ name ++ "': " ++ prom_error_display p
  | ServerError s => "server error: " ++ s
  end.

(** [WebResponseError::error_response]: status code and body. *)
Definition error_response (e : AppError) : Z * string :=
  match e with
  | ParseError _ | SerializeError _ => (400, app_error_display e)
  | _ => (500, app_error_display e)
  end.

(** ** Gauges and the registry *)

(** A [prometheus::Gauge]: its descriptor (name and help, fixed when it is
    created) and its current value. *)
Record Gauge : Type := mkGauge { gname : string; ghelp : string; gval : f64 }.

(** [Gauge::set]. *)
Definition gauge_set (g : Gauge) (v : f64) : Gauge :=
  mkGauge (gname g) (ghelp g) v.

(** [^[a-zA-Z_:][a-zA-Z0-9_:]*$]. *)
Definition is_name_start (c : ascii) : bool :=
  let n := nat_of_ascii c in
  ((65 <=? n)%nat && (n <=? 90)%nat || (97 <=? n)%nat && (n <=? 122)%nat
   || Ascii.eqb c "_"%char || Ascii.eqb c ":"%char)%bool.

Definition is_name_char (c : ascii) : bool := (is_name_start c || is_digit c)%bool.

Fixpoint all_name_chars (s : string) : bool :=
  match s with
  | EmptyString => true
  | String c s' => (is_name_char c && all_name_chars s')%bool
  end.

Definition is_valid_metric_name (s : string) : bool :=
  match s with
  | EmptyString => false
  | String c s' => (is_name_start c && all_name_chars s')%bool
  end.

(** [Gauge::new(name, help)]: [Desc::new] refuses an empty help string and
    an invalid metric name; a new gauge holds [0.0]. *)
Definition gauge_new (name help : string) : result PromError Gauge :=
  if String.eqb help EmptyString then Err (Msg "empty help string")
  else if negb (is_valid_metric_name name) then
    Err (Msg ("'" ++ name ++ "' is not a valid metric name"))
  else Ok (mkGauge name help f64_zero).

(** A [prometheus::Registry]: the descriptors (name, help) registered so
    far, in registration order. *)
Definition Registry := list (string * string).

Definition registry_new : Registry := [].

(** [Registry::register]: a descriptor whose fully-qualified name (no
    constant labels here) is already registered is [AlreadyReg]. *)
Definition registry_register (r : Registry) (g : Gauge) : result PromError Registry :=
  if existsb (fun d => String.eqb (fst d) (gname g)) r then Err AlreadyReg
  else Ok (app r [(gname g, ghelp g)]).

(** The registry is shared state threaded through construction: a state
    and error monad over [Registry]. *)
Definition RegM (A : Type) : Type := Registry -> result AppError (A * Registry).

Definition reg_ret {A} (a : A) : RegM A := fun r => Ok (a, r).
Definition reg_bind {A B} (m : RegM A) (k : A -> RegM B) : RegM B :=
  fun r => match m r with Ok (a, r') => k a r' | Err e => Err e end.
Definition reg_get : RegM Registry := fun r => Ok (r, r).

Notation "x <-- m ;;; k" := (reg_bind m (fun x => k))
  (at level 61, m at next level, right associativity).

(** [fn register_gauge(registry, name, help) -> Result<Gauge, AppError>]. *)
Definition register_gauge (name help : string) : RegM Gauge :=
  fun r =>
    match gauge_new name help with
    | Err e => Err (MetricRegistrationError name e)
    | Ok g =>
        match registry_register r g with
        | Err e => Err (MetricRegistrationError name e)
        | Ok r' => Ok (g, r')
        end
    end.

(** ** [struct Metrics] *)

Module Metrics.

Record t : Type := mk {
  registry : Registry;
  temperature : Gauge;
  humidity : Gauge;
  wind_speed : Gauge;
  wind_gust : Gauge;
  max_daily_gust : Gauge;
  wind_direction : Gauge;
  wind_direction_avg : Gauge;
  uv_index : Gauge;
  solar_radiation : Gauge;
  rain_hourly : Gauge;
  rain_event : Gauge;
  rain_daily : Gauge;
  rain_weekly : Gauge;
  rain_monthly : Gauge;
  rain_yearly : Gauge;
  temperature_indoor : Gauge;
  humidity_indoor : Gauge;
  barometer_relative : Gauge;
  barometer_absolute : Gauge;
  battery_outdoor : Gauge;
  battery_indoor : Gauge
}.

(** The gauge fields, in declaration order. *)
Definition gauges (m : t) : list Gauge :=
  [temperature m; humidity m; wind_speed m; wind_gust m; max_daily_gust m;
   wind_direction m; wind_direction_avg m; uv_index m; solar_radiation m;
   rain_hourly m; rain_event m; rain_daily m; rain_weekly m; rain_monthly m;
   rain_yearly m; temperature_indoor m; humidity_indoor m;
   barometer_relative m; barometer_absolute m; battery_outdoor m;
   battery_indoor m].

(** [Metrics::new]: one [register_gauge] per gauge, in order, the first
    failure returned. *)
Definition new_body : RegM t :=
  temperature <-- register_gauge "weather_temperature_fahrenheit"
                  "Outdoor temperature in Fahrenheit" ;;;
  humidity <-- register_gauge "weather_humidity_percent"
                  "Outdoor relative humidity percentage" ;;;
  wind_speed <-- register_gauge "weather_wind_speed_mph"
                  "Current wind speed in mph" ;;;
  wind_gust <-- register_gauge "weather_wind_gust_mph"
                  "Current wind gust speed in mph" ;;;
  max_daily_gust <-- register_gauge "weather_max_daily_gust_mph"
                  "Maximum wind gust today in mph" ;;;
  wind_direction <-- register_gauge "weather_wind_direction_degrees"
                  "Current wind direction in degrees (0-359)" ;;;
  wind_direction_avg <-- register_gauge "weather_wind_direction_avg10m_degrees"
                  "10-minute average wind direction in degrees" ;;;
  uv_index <-- register_gauge "weather_uv_index"
                  "Current UV index level" ;;;
  solar_radiation <-- register_gauge "weather_solar_radiation_wm2"
                  "Solar radiation in watts per square meter" ;;;
  rain_hourly <-- register_gauge "weather_rain_hourly_inches"
                  "Rainfall in the last hour" ;;;
  rain_event <-- register_gauge "weather_rain_event_inches"
                  "Rainfall for the current rain event" ;;;
  rain_daily <-- register_gauge "weather_rain_daily_inches"
                  "Total rainfall today" ;;;
  rain_weekly <-- register_gauge "weather_rain_weekly_inches"
                  "Total rainfall this week" ;;;
  rain_monthly <-- register_gauge "weather_rain_monthly_inches"
                  "Total rainfall this month" ;;;
  rain_yearly <-- register_gauge "weather_rain_yearly_inches"
                  "Total rainfall this year" ;;;
  temperature_indoor <-- register_gauge "weather_indoor_temperature_fahrenheit"
                  "Indoor temperature in Fahrenheit" ;;;
  humidity_indoor <-- register_gauge "weather_indoor_humidity_percent"
                  "Indoor relative humidity percentage" ;;;
  barometer_relative <-- register_gauge "weather_barometer_relative_inhg"
                  "Relative barometric pressure in inches of mercury" ;;;
  barometer_absolute <-- register_gauge "weather_barometer_absolute_inhg"
                  "Absolute barometric pressure in inches of mercury" ;;;
  battery_outdoor <-- register_gauge "weather_battery_outdoor"
                  "Outdoor sensor battery status (0=low, 1=ok)" ;;;
  battery_indoor <-- register_gauge "weather_battery_indoor"
                  "Indoor sensor battery status (0=low, 1=ok)" ;;;
  registry <-- reg_get ;;;
  reg_ret (mk registry temperature humidity wind_speed wind_gust max_daily_gust
              wind_direction wind_direction_avg uv_index solar_radiation
              rain_hourly rain_event rain_daily rain_weekly rain_monthly
              rain_yearly temperature_indoor humidity_indoor
              barometer_relative barometer_absolute battery_outdoor
              battery_indoor).

Definition new : result AppError t :=
  match new_body registry_new with
  | Ok (m, _) => Ok m
  | Err e => Err e
  end.

(** [if let Some(v) = field { gauge.set(conv(v)); }] *)
Definition set_opt {A} (g : Gauge) (o : option A) (conv : A -> f64) : Gauge :=
  match o with
  | Some v => gauge_set g (conv v)
  | None => g
  end.

(** [Metrics::update]. *)
Definition update (m : t) (data : WeatherData.t) : t :=
  mk (registry m)
     (set_opt (temperature m) (WeatherData.tempf data) (fun v => round v 1))
     (set_opt (humidity m) (WeatherData.humidity data) f64_from_uint)
     (set_opt (wind_speed m) (WeatherData.windspeedmph data) (fun v => round v 2))
     (set_opt (wind_gust m) (WeatherData.windgustmph data) (fun v => round v 2))
     (set_opt (max_daily_gust m) (WeatherData.maxdailygust data) (fun v => round v 2))
     (set_opt (wind_direction m) (WeatherData.winddir data) f64_from_uint)
     (set_opt (wind_direction_avg m) (WeatherData.winddir_avg10m data) f64_from_uint)
     (set_opt (uv_index m) (WeatherData.uv data) f64_from_uint)
     (set_opt (solar_radiation m) (WeatherData.solarradiation data) (fun v => round v 2))
     (set_opt (rain_hourly m) (WeatherData.hourlyrainin data) (fun v => round v 3))
     (set_opt (rain_event m) (WeatherData.eventrainin data) (fun v => round v 3))
     (set_opt (rain_daily m) (WeatherData.dailyrainin data) (fun v => round v 3))
     (set_opt (rain_weekly m) (WeatherData.weeklyrainin data) (fun v => round v 3))
     (set_opt (rain_monthly m) (WeatherData.monthlyrainin data) (fun v => round v 3))
     (set_opt (rain_yearly m) (WeatherData.yearlyrainin data) (fun v => round v 3))
     (set_opt (temperature_indoor m) (WeatherData.tempinf data) (fun v => round v 1))
     (set_opt (humidity_indoor m) (WeatherData.humidityin data) f64_from_uint)
     (set_opt (barometer_relative m) (WeatherData.baromrelin data) (fun v => round v 3))
     (set_opt (barometer_absolute m) (WeatherData.baromabsin data) (fun v => round v 3))
     (set_opt (battery_outdoor m) (WeatherData.battout data) f64_from_uint)
     (set_opt (battery_indoor m) (WeatherData.battin data) f64_from_uint).

End Metrics.

(** ** The [/push/] handler *)

(** [static METRICS: Lazy<Result<Metrics, String>>]. *)
Definition MetricsCell := result string Metrics.t.

Definition metrics_cell_init : MetricsCell :=
  match Metrics.new with
  | Ok m => Ok m
  | Err e => Err (app_error_display e)
  end.

(** [fn metrics()]. *)
Definition metrics (c : MetricsCell) : result AppError Metrics.t :=
  match c with
  | Ok m => Ok m
  | Err e => Err (MetricRegistrationError "global" (Msg e))
  end.

(** [handle_weather_data]: the query map (in iteration order) is
    serialised, parsed back into [WeatherData], and the metrics updated;
    the result and the metrics afterwards. *)
Definition handle_weather_data (c : MetricsCell) (params : list (string * string))
  : result AppError string * MetricsCell :=
  let query_string := to_string params in
  match from_str query_string with
  | Err e => (Err (ParseError e), c)
  | Ok data =>
      match metrics c with
      | Err e => (Err e, c)
      | Ok m => (Ok "ok", Ok (Metrics.update m data))
      end
  end.

(** The HTTP response: [200] with the body, or [error_response]. *)
Definition respond (r : result AppError string) : Z * string :=
  match r with
  | Ok s => (200, s)
  | Err e => error_response e
  end.

(** ** Vocabulary of the properties *)

Fixpoint all_digits (s : string) : bool :=
  match s with
  | EmptyString => true
  | String c s' => (is_digit c && all_digits s')%bool
  end.

Fixpoint digits_value_acc (acc : Z) (s : string) : Z :=
  match s with
  | EmptyString => acc
  | String c s' => digits_value_acc (acc * 10 + digit_val c) s'
  end.

(** The number written by a string of decimal digits. *)
Definition digits_value (s : string) : Z := digits_value_acc 0 s.

(** [T::MAX] of an integer field's declared type. *)
Definition kind_max (k : Kind) : Z :=
  match k with
  | K_u8 => u8_max
  | K_u16 => u16_max
  | K_f32 => 0
  end.

Definition result_map {E A B} (f : A -> B) (r : result E A) : result E B :=
  match r with
  | Ok a => Ok (f a)
  | Err e => Err e
  end.

(** The typed part of a [WeatherData], without the catch-all. *)
Definition strip_extra (w : WeatherData.t) : WeatherData.t := with_extra [] w.

(** Every message a field value's parser can give. *)
Definition value_error_messages : list string :=
  [err_float_empty; err_float_invalid; err_int_empty; err_int_digit; err_int_overflow].

(** [f j] holds for [k <= j < k + p]. *)
Fixpoint all_from (f : Z -> bool) (p : nat) (k : Z) : bool :=
  match p with
  | O => true
  | S p' => (f k && all_from f p' (k + 1))%bool
  end.

(** A gauge's descriptor. *)
Definition desc (g : Gauge) : string * string := (gname g, ghelp g).

(** The exact value [n] is held by [x]. *)
Definition holds_int (x : f64) (n : Z) : bool :=
  match x with
  | S754_zero _ => n =? 0
  | S754_finite false m e => Zpos m * 2 ^ Z.max e 0 =? n * 2 ^ Z.max (- e) 0
  | _ => false
  end.

(** The readings of the tests [test_metrics_update_partial_data] and
    [test_metrics_update_all_fields]. *)
Definition partial_data : WeatherData.t :=
  mk (Some (f32_lit "72.5")) (Some 45) (Some (f32_lit "5.5")) None None None None None
     None None None None None None None None None None None None None [].

Definition full_data : WeatherData.t :=
  mk (Some (f32_lit "85.3")) (Some 65) (Some (f32_lit "12.34")) (Some (f32_lit "18.76"))
     (Some (f32_lit "25.5")) (Some 180) (Some 175) (Some 8) (Some (f32_lit "456.78"))
     (Some (f32_lit "0.123")) (Some (f32_lit "0.456")) (Some (f32_lit "1.234"))
     (Some (f32_lit "2.5")) (Some (f32_lit "5.0")) (Some (f32_lit "25.0"))
     (Some (f32_lit "70.2")) (Some 50) (Some (f32_lit "29.92")) (Some (f32_lit "29.85"))
     (Some 1) (Some 1) [].

(** The start of [main]: [if let Err(e) = METRICS.as_ref()] it returns
    [MetricRegistrationError { name: "initialization", .. }]; otherwise the
    server is started (not modelled). *)
Definition main_init (c : MetricsCell) : result AppError unit :=
  match c with
  | Err e => Err (MetricRegistrationError "initialization" (Msg e))
  | Ok _ => Ok tt
  end.

(** [Option::or]. *)
Definition or_else {A} (a b : option A) : option A :=
  match a with
  | Some _ => a
  | None => b
  end.

(** The reading [d2] laid over [d1]: each field of [d2] where it is
    present, else that of [d1]. *)
Definition overlay (d1 d2 : WeatherData.t) : WeatherData.t :=
  mk (or_else (tempf d2) (tempf d1)) (or_else (humidity d2) (humidity d1))
     (or_else (windspeedmph d2) (windspeedmph d1))
     (or_else (windgustmph d2) (windgustmph d1))
     (or_else (maxdailygust d2) (maxdailygust d1))
     (or_else (winddir d2) (winddir d1))
     (or_else (winddir_avg10m d2) (winddir_avg10m d1))
     (or_else (uv d2) (uv d1))
     (or_else (solarradiation d2) (solarradiation d1))
     (or_else (hourlyrainin d2) (hourlyrainin d1))
     (or_else (eventrainin d2) (eventrainin d1))
     (or_else (dailyrainin d2) (dailyrainin d1))
     (or_else (weeklyrainin d2) (weeklyrainin d1))
     (or_else (monthlyrainin d2) (monthlyrainin d1))
     (or_else (yearlyrainin d2) (yearlyrainin d1))
     (or_else (tempinf d2) (tempinf d1))
     (or_else (humidityin d2) (humidityin d1))
     (or_else (baromrelin d2) (baromrelin d1))
     (or_else (baromabsin d2) (baromabsin d1))
     (or_else (battout d2) (battout d1))
     (or_else (battin d2) (battin d1))
     (extra d2).

(** The character [c] does not occur in [s]. *)
Fixpoint no_char (c : ascii) (s : string) : bool :=
  match s with
  | EmptyString => true
  | String x s' => (negb (Ascii.eqb x c) && no_char c s')%bool
  end.

(** A station's query, with a vendor key the struct does not know. *)
Definition sample_query : list (string * string) :=
  [("tempf", "72.5"); ("stationtype", "AMBWeatherV4.2.9"); ("humidity", "45")].

(** * Properties *)

(** ** Rounding *)

Lemma round_half_up_mag_bounds (m k : Z) :
  0 < k ->
  round_half_up_mag m k * 2 ^ k - 2 ^ (k - 1) <= m <
  round_half_up_mag m k * 2 ^ k + 2 ^ (k - 1).
Proof.
  intros Hk. unfold round_half_up_mag.
  rewrite Z.shiftr_div_pow2 by lia.
  rewrite Z.shiftl_mul_pow2 by lia.
  rewrite Z.mul_1_l.
  assert (Hpk : 2 ^ k = 2 * 2 ^ (k - 1)).
  { rewrite <- Z.pow_succ_r by lia. f_equal. lia. }
  assert (Hh : 0 < 2 ^ (k - 1)) by (apply Z.pow_pos_nonneg; lia).
  rewrite Hpk.
  pose proof (Z.div_mod (m + 2 ^ (k - 1)) (2 * 2 ^ (k - 1)) ltac:(lia)) as Hdm.
  pose proof (Z.mod_pos_bound (m + 2 ^ (k - 1)) (2 * 2 ^ (k - 1)) ltac:(lia)) as Hb.
  lia.
Qed.

Lemma powi_ten_small (d : Z) :
  0 <= d <= 3 -> f64_powi f64_ten d = f64_of_Z (10 ^ d).
Proof.
  intros Hd.
  assert (d = 0 \/ d = 1 \/ d = 2 \/ d = 3) as [-> | [-> | [-> | ->]]] by lia;
    vm_compute; reflexivity.
Qed.

(** C2: [round] multiplies by [10^places] (exactly [10], [100], [1000]
    for the precisions used), rounds to the nearest integer with halfway
    cases away from zero, and divides back; the four assertions of
    [test_round] hold. *)
Theorem round_quantizes :
  (forall d, 0 <= d <= 3 -> f64_powi f64_ten d = f64_of_Z (10 ^ d)) /\
  (forall m k, 0 < k ->
     round_half_up_mag m k * 2 ^ k - 2 ^ (k - 1) <= m <
     round_half_up_mag m k * 2 ^ k + 2 ^ (k - 1)) /\
  f64_round (f64_lit "2.5") = f64_lit "3" /\
  f64_round (f64_lit "-2.5") = f64_lit "-3" /\
  f64_round (f64_lit "0.5") = f64_lit "1" /\
  round (f32_lit "72.456") 1 = f64_lit "72.5" /\
  round (f32_lit "72.444") 1 = f64_lit "72.4" /\
  round (f32_lit "0.123456") 3 = f64_lit "0.123" /\
  round (f32_lit "0.1239") 3 = f64_lit "0.124".
Proof.
  split; [exact powi_ten_small |].
  split; [exact round_half_up_mag_bounds |].
  repeat split; vm_compute; reflexivity.
Qed.

(** ** [Metrics::update] *)

Lemma metrics_new_ok :
  exists m, Metrics.new = Ok m.
Proof.
  destruct Metrics.new as [m | e] eqn:E; [eauto | vm_compute in E; discriminate].
Qed.

(** C1: a field absent from the reading leaves its gauge as it was; a
    freshly built registry holds [0.0] everywhere, and after the update of
    [test_metrics_update_partial_data] only the three given gauges moved. *)
Theorem update_absent_fields_unchanged :
  (forall (m : Metrics.t) (d : WeatherData.t),
    (tempf d = None -> Metrics.temperature (Metrics.update m d) = Metrics.temperature m) /\
    (humidity d = None -> Metrics.humidity (Metrics.update m d) = Metrics.humidity m) /\
    (windspeedmph d = None -> Metrics.wind_speed (Metrics.update m d) = Metrics.wind_speed m) /\
    (windgustmph d = None -> Metrics.wind_gust (Metrics.update m d) = Metrics.wind_gust m) /\
    (maxdailygust d = None ->
       Metrics.max_daily_gust (Metrics.update m d) = Metrics.max_daily_gust m) /\
    (winddir d = None ->
       Metrics.wind_direction (Metrics.update m d) = Metrics.wind_direction m) /\
    (winddir_avg10m d = None ->
       Metrics.wind_direction_avg (Metrics.update m d) = Metrics.wind_direction_avg m) /\
    (uv d = None -> Metrics.uv_index (Metrics.update m d) = Metrics.uv_index m) /\
    (solarradiation d = None ->
       Metrics.solar_radiation (Metrics.update m d) = Metrics.solar_radiation m) /\
    (hourlyrainin d = None -> Metrics.rain_hourly (Metrics.update m d) = Metrics.rain_hourly m) /\
    (eventrainin d = None -> Metrics.rain_event (Metrics.update m d) = Metrics.rain_event m) /\
    (dailyrainin d = None -> Metrics.rain_daily (Metrics.update m d) = Metrics.rain_daily m) /\
    (weeklyrainin d = None -> Metrics.rain_weekly (Metrics.update m d) = Metrics.rain_weekly m) /\
    (monthlyrainin d = None ->
       Metrics.rain_monthly (Metrics.update m d) = Metrics.rain_monthly m) /\
    (yearlyrainin d = None -> Metrics.rain_yearly (Metrics.update m d) = Metrics.rain_yearly m) /\
    (tempinf d = None ->
       Metrics.temperature_indoor (Metrics.update m d) = Metrics.temperature_indoor m) /\
    (humidityin d = None ->
       Metrics.humidity_indoor (Metrics.update m d) = Metrics.humidity_indoor m) /\
    (baromrelin d = None ->
       Metrics.barometer_relative (Metrics.update m d) = Metrics.barometer_relative m) /\
    (baromabsin d = None ->
       Metrics.barometer_absolute (Metrics.update m d) = Metrics.barometer_absolute m) /\
    (battout d = None ->
       Metrics.battery_outdoor (Metrics.update m d) = Metrics.battery_outdoor m) /\
    (battin d = None ->
       Metrics.battery_indoor (Metrics.update m d) = Metrics.battery_indoor m)) /\
  (exists m0, Metrics.new = Ok m0 /\
     Forall (fun g => gval g = f64_zero) (Metrics.gauges m0) /\
     map gval (Metrics.gauges (Metrics.update m0 partial_data)) =
       f64_lit "72.5" :: f64_lit "45.0" :: f64_lit "5.5" :: List.repeat f64_zero 18).
Proof.
  split.
  - intros m d. repeat split; intros H; unfold Metrics.update; simpl; rewrite H; reflexivity.
  - destruct metrics_new_ok as [m0 E]. exists m0. split; [exact E |].
    vm_compute in E. injection E as <-.
    split; [repeat constructor | vm_compute; reflexivity].
Qed.

Lemma all_from_spec (f : Z -> bool) (p : nat) (k : Z) :
  all_from f p k = true -> forall j, k <= j < k + Z.of_nat p -> f j = true.
Proof.
  revert k. induction p as [| p IH]; simpl; intros k H j Hj; [lia |].
  apply andb_prop in H as [H1 H2].
  destruct (Z.eq_dec j k) as [-> | Hne]; [exact H1 |].
  apply (IH (k + 1)); [exact H2 | lia].
Qed.

Lemma from_uint_exact_u16 (n : Z) :
  0 <= n <= u16_max -> holds_int (f64_from_uint n) n = true.
Proof.
  intros Hn.
  apply (all_from_spec (fun k => holds_int (f64_from_uint k) k) (Z.to_nat 65536) 0).
  - vm_compute. reflexivity.
  - rewrite Z2Nat.id by lia. unfold u16_max in Hn. lia.
Qed.

(** C3: a present float field is stored rounded to its precision (1 for
    the temperatures, 2 for wind speeds and solar radiation, 3 for rain
    and pressure); a present integer field is stored as [f64::from(v)],
    which holds exactly [v]; and [test_metrics_update_all_fields] holds. *)
Theorem update_stores_rounded :
  (forall (m : Metrics.t) (d : WeatherData.t),
    (forall v, tempf d = Some v ->
       gval (Metrics.temperature (Metrics.update m d)) = round v 1) /\
    (forall n, humidity d = Some n ->
       gval (Metrics.humidity (Metrics.update m d)) = f64_from_uint n) /\
    (forall v, windspeedmph d = Some v ->
       gval (Metrics.wind_speed (Metrics.update m d)) = round v 2) /\
    (forall v, windgustmph d = Some v ->
       gval (Metrics.wind_gust (Metrics.update m d)) = round v 2) /\
    (forall v, maxdailygust d = Some v ->
       gval (Metrics.max_daily_gust (Metrics.update m d)) = round v 2) /\
    (forall n, winddir d = Some n ->
       gval (Metrics.wind_direction (Metrics.update m d)) = f64_from_uint n) /\
    (forall n, winddir_avg10m d = Some n ->
       gval (Metrics.wind_direction_avg (Metrics.update m d)) = f64_from_uint n) /\
    (forall n, uv d = Some n ->
       gval (Metrics.uv_index (Metrics.update m d)) = f64_from_uint n) /\
    (forall v, solarradiation d = Some v ->
       gval (Metrics.solar_radiation (Metrics.update m d)) = round v 2) /\
    (forall v, hourlyrainin d = Some v ->
       gval (Metrics.rain_hourly (Metrics.update m d)) = round v 3) /\
    (forall v, eventrainin d = Some v ->
       gval (Metrics.rain_event (Metrics.update m d)) = round v 3) /\
    (forall v, dailyrainin d = Some v ->
       gval (Metrics.rain_daily (Metrics.update m d)) = round v 3) /\
    (forall v, weeklyrainin d = Some v ->
       gval (Metrics.rain_weekly (Metrics.update m d)) = round v 3) /\
    (forall v, monthlyrainin d = Some v ->
       gval (Metrics.rain_monthly (Metrics.update m d)) = round v 3) /\
    (forall v, yearlyrainin d = Some v ->
       gval (Metrics.rain_yearly (Metrics.update m d)) = round v 3) /\
    (forall v, tempinf d = Some v ->
       gval (Metrics.temperature_indoor (Metrics.update m d)) = round v 1) /\
    (forall n, humidityin d = Some n ->
       gval (Metrics.humidity_indoor (Metrics.update m d)) = f64_from_uint n) /\
    (forall v, baromrelin d = Some v ->
       gval (Metrics.barometer_relative (Metrics.update m d)) = round v 3) /\
    (forall v, baromabsin d = Some v ->
       gval (Metrics.barometer_absolute (Metrics.update m d)) = round v 3) /\
    (forall n, battout d = Some n ->
       gval (Metrics.battery_outdoor (Metrics.update m d)) = f64_from_uint n) /\
    (forall n, battin d = Some n ->
       gval (Metrics.battery_indoor (Metrics.update m d)) = f64_from_uint n)) /\
  (forall n, 0 <= n <= u16_max -> holds_int (f64_from_uint n) n = true) /\
  (exists m0, Metrics.new = Ok m0 /\
     map gval (Metrics.gauges (Metrics.update m0 full_data)) =
       map f64_lit ["85.3"; "65.0"; "12.34"; "18.76"; "25.5"; "180.0"; "175.0"; "8.0";
                    "456.78"; "0.123"; "0.456"; "1.234"; "2.5"; "5.0"; "25.0"; "70.2";
                    "50.0"; "29.92"; "29.85"; "1.0"; "1.0"]).
Proof.
  split; [| split; [exact from_uint_exact_u16 |]].
  - intros m d. repeat split; intros v H; unfold Metrics.update; simpl; rewrite H; reflexivity.
  - destruct metrics_new_ok as [m0 E]. exists m0. split; [exact E |].
    vm_compute in E. injection E as <-. vm_compute; reflexivity.
Qed.

(** ** Decoding *)

Lemma field_of_key_name (k : string) (f : Field) :
  field_of_key k = Some f -> field_name f = k.
Proof.
  unfold field_of_key. intros H. apply find_some in H as [_ H].
  apply String.eqb_eq. exact H.
Qed.

Lemma field_of_key_field_name (f : Field) : field_of_key (field_name f) = Some f.
Proof. destruct f; reflexivity. Qed.

Lemma get_slot_with_extra (f : Field) e w : get_slot f (with_extra e w) = get_slot f w.
Proof. destruct f; reflexivity. Qed.

Lemma get_slot_default (f : Field) : get_slot f WeatherData.default = None.
Proof. destruct f; reflexivity. Qed.

Lemma strip_set_slot f x w : strip_extra (set_slot f x w) = set_slot f x (strip_extra w).
Proof. reflexivity. Qed.

Lemma strip_with_extra e w : strip_extra (with_extra e w) = strip_extra w.
Proof. reflexivity. Qed.

Lemma extra_set_slot f x w : extra (set_slot f x w) = extra w.
Proof. reflexivity. Qed.

Lemma get_slot_strip_eq f w1 w2 :
  strip_extra w1 = strip_extra w2 -> get_slot f w1 = get_slot f w2.
Proof.
  intros H. rewrite <- (get_slot_with_extra f [] w1), <- (get_slot_with_extra f [] w2).
  exact (f_equal (get_slot f) H).
Qed.

Lemma get_set_other (f g : Field) x w :
  f <> g -> get_slot g (set_slot f x w) = get_slot g w.
Proof.
  intros Hne. destruct f, g; solve [exfalso; apply Hne; reflexivity | reflexivity].
Qed.

Lemma hm_insert_keeps (k v k' : string) (m : list (string * string)) :
  (k' = k \/ exists v', In (k', v') m) -> exists v'', In (k', v'') (hm_insert k v m).
Proof.
  intros H. destruct (String.eqb_spec k' k) as [-> | Hne].
  - exists v. left. reflexivity.
  - destruct H as [H | [v' Hin]]; [contradiction |].
    exists v'. right. apply filter_In. split; [exact Hin |].
    simpl. apply negb_true_iff. apply String.eqb_neq. exact Hne.
Qed.

(** Unrecognised keys only ever reach [extra]. *)
Lemma visit_map_filter (l : list (string * string)) (w1 w2 : WeatherData.t) :
  strip_extra w1 = strip_extra w2 ->
  result_map strip_extra (visit_map l w1) =
  result_map strip_extra (visit_map (filter (fun p => recognized (fst p)) l) w2).
Proof.
  revert w1 w2. induction l as [| [k v] l IH]; intros w1 w2 H.
  - simpl. rewrite H. reflexivity.
  - simpl. unfold recognized at 1. destruct (field_of_key k) as [f |] eqn:Hk.
    + simpl. rewrite Hk. rewrite (get_slot_strip_eq f w1 w2 H).
      destruct (get_slot f w2); [reflexivity |].
      destruct (parse_value (field_kind f) v) as [x | e]; simpl; [| reflexivity].
      apply IH. rewrite !strip_set_slot, H. reflexivity.
    + apply IH. rewrite strip_with_extra. exact H.
Qed.

Lemma visit_map_extra (l : list (string * string)) (w w' : WeatherData.t) :
  visit_map l w = Ok w' ->
  (forall k, (exists v, In (k, v) (extra w)) -> exists v, In (k, v) (extra w')) /\
  (forall k v, In (k, v) l -> recognized k = false -> exists v', In (k, v') (extra w')).
Proof.
  revert w. induction l as [| [k v] l IH]; intros w H; simpl in H.
  - injection H as <-. split; [auto | intros k v []].
  - destruct (field_of_key k) as [f |] eqn:Hk.
    + destruct (get_slot f w); [discriminate |].
      destruct (parse_value (field_kind f) v) as [x | e]; simpl in H; [| discriminate].
      apply IH in H as [H1 H2]. split.
      * intros k' Hk'. apply H1. rewrite extra_set_slot. exact Hk'.
      * intros k' v' [Heq | Hin] Hr.
        -- injection Heq as <- <-. unfold recognized in Hr. rewrite Hk in Hr. discriminate.
        -- exact (H2 k' v' Hin Hr).
    + apply IH in H as [H1 H2]. split.
      * intros k' Hk'. apply H1. simpl. apply hm_insert_keeps. right. exact Hk'.
      * intros k' v' [Heq | Hin] Hr.
        -- injection Heq as <- <-. apply H1. simpl. apply hm_insert_keeps. left. reflexivity.
        -- exact (H2 k' v' Hin Hr).
Qed.

(** C4: unrecognised keys never change the outcome of decoding: the typed
    fields (and any failure) are those of the recognised pairs alone, a
    query of unrecognised keys only always decodes, their keys are kept in
    [extra]; and [tempf=72.5&humidity=45] decodes to those two fields with
    every other field absent. *)
Theorem decode_ignores_unrecognized :
  (forall l, result_map strip_extra (from_pairs l) =
             result_map strip_extra (from_pairs (filter (fun p => recognized (fst p)) l))) /\
  (forall l, forallb (fun p => negb (recognized (fst p))) l = true ->
             exists w, from_pairs l = Ok w) /\
  (forall l w, from_pairs l = Ok w ->
     forall k v, In (k, v) l -> recognized k = false -> exists v', In (k, v') (extra w)) /\
  from_str "tempf=72.5&humidity=45" =
    Ok (WeatherData.mk (Some (f32_lit "72.5")) (Some 45) None None None None None None None
          None None None None None None None None None None None None []).
Proof.
  split; [| split; [| split]].
  - intros l. apply visit_map_filter. reflexivity.
  - intros l Hl.
    assert (Hf : filter (fun p => recognized (fst p)) l = []).
    { induction l as [| p l IH]; [reflexivity |].
      simpl in Hl. apply andb_prop in Hl as [Hp Hl].
      simpl. apply negb_true_iff in Hp. rewrite Hp. exact (IH Hl). }
    pose proof (visit_map_filter l WeatherData.default WeatherData.default eq_refl) as H.
    rewrite Hf in H. unfold from_pairs.
    destruct (visit_map l WeatherData.default) as [w | e]; [eauto | discriminate].
  - intros l w H k v Hin Hr. exact (proj2 (visit_map_extra l _ _ H) k v Hin Hr).
  - vm_compute. reflexivity.
Qed.

(** C9: the empty query decodes, to a reading with every field absent. *)
Theorem decode_empty :
  form_parse "" = [] /\
  from_str "" = Ok WeatherData.default /\
  from_pairs [] = Ok WeatherData.default /\
  (forall f, get_slot f WeatherData.default = None) /\
  extra WeatherData.default = [].
Proof.
  repeat split; [exact get_slot_default].
Qed.

Lemma uint_digits_err max acc s e :
  uint_digits max acc s = Err e -> e = err_int_digit \/ e = err_int_overflow.
Proof.
  revert acc. induction s as [| c s IH]; intros acc H; simpl in H; [discriminate |].
  destruct (negb (is_digit c)); [injection H as <-; auto |].
  destruct (max <? acc * 10); [injection H as <-; auto |].
  destruct (max <? acc * 10 + digit_val c); [injection H as <-; auto |].
  exact (IH _ H).
Qed.

Lemma parse_uint_err max v e :
  parse_uint max v = Err e -> In e value_error_messages.
Proof.
  unfold value_error_messages. destruct v as [| c r]; unfold parse_uint; intros H.
  - injection H as <-. simpl; auto.
  - destruct (_ && _)%bool; [injection H as <-; simpl; auto 6 |].
    destruct (Ascii.eqb c "+"); apply uint_digits_err in H as [-> | ->]; simpl; auto 6.
Qed.

Lemma parse_f32_err v e :
  parse_f32 v = Err e -> In e value_error_messages.
Proof.
  unfold value_error_messages, parse_f32, parse_float. destruct v as [| c r]; intros H.
  - injection H as <-. simpl; auto.
  - match type of H with context [let '(_, _) := ?p in _] => destruct p as [neg body] end.
    destruct (_ || _)%bool; [discriminate |].
    destruct (String.eqb _ "nan"); [discriminate |].
    destruct (parse_number body) as [[m x] |]; [discriminate |].
    injection H as <-. simpl; auto.
Qed.

Lemma parse_value_err k v e :
  parse_value k v = Err e -> In e value_error_messages.
Proof.
  destruct k; simpl; intros H.
  - destruct (parse_f32 v) eqn:Hp; simpl in H; [discriminate |].
    injection H as <-. exact (parse_f32_err v _ Hp).
  - destruct (parse_uint u8_max v) eqn:Hp; simpl in H; [discriminate |].
    injection H as <-. exact (parse_uint_err _ v _ Hp).
  - destruct (parse_uint u16_max v) eqn:Hp; simpl in H; [discriminate |].
    injection H as <-. exact (parse_uint_err _ v _ Hp).
Qed.

(** The slots of the keys still to come are empty. *)
Definition slots_free (l : list (string * string)) (w : WeatherData.t) : Prop :=
  forall k v f, In (k, v) l -> field_of_key k = Some f -> get_slot f w = None.

Lemma slots_free_step k v l f x w :
  NoDup (map fst ((k, v) :: l)) -> field_of_key k = Some f ->
  slots_free ((k, v) :: l) w -> slots_free l (set_slot f x w).
Proof.
  intros Hnd Hk Hfree k' v' f' Hin Hk'.
  simpl in Hnd. inversion Hnd as [| ? ? Hnotin _]; subst.
  rewrite get_set_other.
  - exact (Hfree k' v' f' (or_intror Hin) Hk').
  - intros <-. apply Hnotin.
    rewrite <- (field_of_key_name k f Hk), (field_of_key_name k' f Hk').
    apply in_map_iff. exists (k', v'). auto.
Qed.

Lemma slots_free_skip k v l e w :
  slots_free ((k, v) :: l) w -> slots_free l (with_extra e w).
Proof.
  intros Hfree k' v' f' Hin Hk'. rewrite get_slot_with_extra.
  exact (Hfree k' v' f' (or_intror Hin) Hk').
Qed.

(** A failure comes from a recognised value that does not parse. *)
Lemma visit_map_err_source l w e :
  NoDup (map fst l) -> slots_free l w -> visit_map l w = Err e ->
  exists k v f, In (k, v) l /\ field_of_key k = Some f /\ parse_value (field_kind f) v = Err e.
Proof.
  revert w. induction l as [| [k v] l IH]; intros w Hnd Hfree H; simpl in H; [discriminate |].
  assert (Hnd' : NoDup (map fst l)) by (inversion Hnd; assumption).
  destruct (field_of_key k) as [f |] eqn:Hk.
  - rewrite (Hfree k v f (or_introl eq_refl) Hk) in H.
    destruct (parse_value (field_kind f) v) as [x | e'] eqn:Hp; simpl in H.
    + destruct (IH _ Hnd' (slots_free_step k v l f x w Hnd Hk Hfree) H)
        as (k' & v' & f' & Hin & Hk' & Hp').
      exists k', v', f'. split; [right; exact Hin | split; assumption].
    + injection H as <-. exists k, v, f. split; [left; reflexivity | split; assumption].
  - destruct (IH _ Hnd' (slots_free_skip k v l _ w Hfree) H) as (k' & v' & f' & Hin & Hk' & Hp').
    exists k', v', f'. split; [right; exact Hin | split; assumption].
Qed.

(** A recognised value that does not parse makes the decoding fail. *)
Lemma visit_map_err_of_bad_value l w k v f e :
  NoDup (map fst l) -> slots_free l w ->
  In (k, v) l -> field_of_key k = Some f -> parse_value (field_kind f) v = Err e ->
  exists e', visit_map l w = Err e'.
Proof.
  revert w. induction l as [| [k0 v0] l IH]; intros w Hnd Hfree Hin Hk Hp; [destruct Hin |].
  simpl. destruct (field_of_key k0) as [f0 |] eqn:Hk0.
  - rewrite (Hfree k0 v0 f0 (or_introl eq_refl) Hk0).
    destruct (parse_value (field_kind f0) v0) as [x | e'] eqn:Hp0; simpl; [| eauto].
    destruct Hin as [Heq | Hin].
    + injection Heq as -> ->. rewrite Hk0 in Hk. injection Hk as ->. congruence.
    + apply IH; [inversion Hnd; assumption | exact (slots_free_step k0 v0 l f0 x w Hnd Hk0 Hfree)
                | exact Hin | exact Hk | exact Hp].
  - destruct Hin as [Heq | Hin]; [injection Heq as -> ->; congruence |].
    apply IH; [inversion Hnd; assumption | exact (slots_free_skip k0 v0 l _ w Hfree)
              | exact Hin | exact Hk | exact Hp].
Qed.

Lemma slots_free_default l : slots_free l WeatherData.default.
Proof. intros k v f _ _. apply get_slot_default. Qed.

(** C5, as the code has it: on a query whose keys are distinct (a map),
    decoding fails exactly when some recognised key's value does not parse
    at the field's type, and the failure is that parser's message, one of
    [value_error_messages], whatever the key; the handler reports it as
    ["failed to parse weather data: " ++ e]. *)
Theorem decode_fails_iff_bad_value (l : list (string * string)) :
  NoDup (map fst l) ->
  ((exists e, from_pairs l = Err e) <->
   exists k v f e, In (k, v) l /\ field_of_key k = Some f /\ parse_value (field_kind f) v = Err e) /\
  (forall e, from_pairs l = Err e ->
     In e value_error_messages /\
     app_error_display (ParseError e) = "failed to parse weather data: " ++ e /\
     exists k v f, In (k, v) l /\ field_of_key k = Some f /\ parse_value (field_kind f) v = Err e).
Proof.
  intros Hnd. split; [split |].
  - intros [e He].
    destruct (visit_map_err_source l _ e Hnd (slots_free_default l) He) as (k & v & f & H).
    exists k, v, f, e. exact H.
  - intros (k & v & f & e & Hin & Hk & Hp).
    exact (visit_map_err_of_bad_value l _ k v f e Hnd (slots_free_default l) Hin Hk Hp).
  - intros e He.
    destruct (visit_map_err_source l _ e Hnd (slots_free_default l) He)
      as (k & v & f & Hin & Hk & Hp).
    split; [exact (parse_value_err _ _ _ Hp) |].
    split; [reflexivity |]. exists k, v, f. split; [exact Hin | split; assumption].
Qed.

(** C5 fails as stated: the message for [tempf=notanumber] does not name
    [tempf]. *)
Lemma decode_error_message_omits_field :
  exists e, from_str "tempf=notanumber" = Err e /\
    app_error_display (ParseError e) = "failed to parse weather data: invalid float literal" /\
    String.index 0 "tempf" (app_error_display (ParseError e)) = None.
Proof. exists err_float_invalid. repeat split; vm_compute; reflexivity. Defined.

Lemma decode_fails_iff_bad_value_witness :
  NoDup (map fst [("tempf", "notanumber"); ("stationtype", "AMBWeatherV4.2.9")]) /\
  exists e, from_pairs [("tempf", "notanumber"); ("stationtype", "AMBWeatherV4.2.9")] = Err e.
Proof.
  assert (Hnd : NoDup (map fst [("tempf", "notanumber"); ("stationtype", "AMBWeatherV4.2.9")])).
  { repeat constructor; simpl; intuition discriminate. }
  split; [exact Hnd |].
  apply (proj2 (proj1 (decode_fails_iff_bad_value _ Hnd))).
  exists "tempf", "notanumber", F_tempf, err_float_invalid.
  split; [left; reflexivity | split; vm_compute; reflexivity].
Defined.

(** ** Integer fields *)

Ltac split_all := repeat match goal with |- _ /\ _ => split end.

Lemma digit_val_range c : is_digit c = true -> 0 <= digit_val c <= 9.
Proof.
  unfold is_digit, digit_val. intros H. apply andb_prop in H as [H1 H2].
  apply Nat.leb_le in H1. apply Nat.leb_le in H2. lia.
Qed.

Lemma digits_value_acc_ge acc s :
  0 <= acc -> all_digits s = true -> acc <= digits_value_acc acc s.
Proof.
  revert acc. induction s as [| c s IH]; intros acc Hacc H; simpl in *; [lia |].
  apply andb_prop in H as [Hc Hs]. pose proof (digit_val_range c Hc).
  specialize (IH (acc * 10 + digit_val c) ltac:(lia) Hs). lia.
Qed.

Lemma uint_digits_ok max acc s n :
  0 <= acc <= max ->
  uint_digits max acc s = Ok n <-> all_digits s = true /\ digits_value_acc acc s = n /\ n <= max.
Proof.
  revert acc. induction s as [| c s IH]; intros acc Hacc; simpl.
  - split; [intros H; injection H as <-; split_all; auto; lia | intros (_ & <- & _); reflexivity].
  - destruct (is_digit c) eqn:Hd; simpl.
    + pose proof (digit_val_range c Hd) as Hdv.
      destruct (max <? acc * 10) eqn:H1.
      * split; [discriminate |]. intros (Hs & Hv & Hn).
        pose proof (digits_value_acc_ge (acc * 10 + digit_val c) s ltac:(lia) Hs).
        apply Z.ltb_lt in H1. lia.
      * destruct (max <? acc * 10 + digit_val c) eqn:H2.
        -- split; [discriminate |]. intros (Hs & Hv & Hn).
           pose proof (digits_value_acc_ge (acc * 10 + digit_val c) s ltac:(lia) Hs).
           apply Z.ltb_lt in H2. lia.
        -- apply Z.ltb_ge in H1. apply Z.ltb_ge in H2. apply IH. lia.
    + split; [discriminate | intros (Hs & _); discriminate].
Qed.

Lemma is_digit_plus : is_digit "+"%char = false.
Proof. reflexivity. Qed.

Lemma is_digit_minus : is_digit "-"%char = false.
Proof. reflexivity. Qed.

(** [u8::from_str] / [u16::from_str] accept exactly an optional [+] then a
    non-empty run of digits whose value is at most [T::MAX]. *)
Lemma parse_uint_ok max v n :
  0 <= max ->
  parse_uint max v = Ok n <->
  exists s, (v = s \/ v = String "+"%char s) /\ s <> EmptyString /\
            all_digits s = true /\ digits_value s = n /\ n <= max.
Proof.
  intros Hmax. destruct v as [| c r]; unfold parse_uint.
  - split; [discriminate |].
    intros (s & [Hs | Hs] & Hne & _); [subst; contradiction | discriminate].
  - destruct (Ascii.eqb_spec c "+"%char) as [-> | Hp].
    + destruct (String.eqb_spec r EmptyString) as [-> | Hr]; simpl.
      * split; [discriminate |].
        intros (s & [Hs | Hs] & Hne & Hd & _).
        -- subst s. simpl in Hd. discriminate.
        -- injection Hs as <-. contradiction.
      * rewrite (uint_digits_ok max 0 r n ltac:(lia)). split.
        -- intros (Hd & Hv & Hn). exists r. split_all; auto.
        -- intros (s & [Hs | Hs] & Hne & Hd & Hv & Hn).
           ++ subst s. simpl in Hd. discriminate.
           ++ injection Hs as <-. split_all; auto.
    + destruct (Ascii.eqb_spec c "-"%char) as [Hm | Hm];
        destruct (String.eqb_spec r EmptyString) as [Hr | Hr]; cbn -[uint_digits].
      1: { subst. split; [discriminate |].
           intros (s & [Hs | Hs] & Hne & Hd & _); [subst s; discriminate | discriminate]. }
      all: rewrite (uint_digits_ok max 0 (String c r) n ltac:(lia)); split;
        [ intros (Hd & Hv & Hn); exists (String c r);
          split; [left; reflexivity | split; [discriminate | split_all; auto]]
        | intros (s & [Hs | Hs] & Hne & Hd & Hv & Hn);
          [subst s; split_all; auto | injection Hs as Hc _; contradiction] ].
Qed.

(** Decoding a single pair: the field's parser, into an empty reading. *)
Lemma from_pairs_single f v :
  from_pairs [(field_name f, v)] =
  result_map (fun x => set_slot f x WeatherData.default) (parse_value (field_kind f) v).
Proof.
  unfold from_pairs. simpl. rewrite field_of_key_field_name, get_slot_default.
  destruct (parse_value (field_kind f) v); reflexivity.
Qed.

Lemma parse_value_int f v :
  field_kind f <> K_f32 ->
  parse_value (field_kind f) v = result_map VInt (parse_uint (kind_max (field_kind f)) v).
Proof.
  intros Hk. destruct (field_kind f); [contradiction | |];
    simpl; destruct (parse_uint _ v); reflexivity.
Qed.

Lemma kind_max_nonneg k : 0 <= kind_max k.
Proof. destruct k; unfold kind_max, u8_max, u16_max; lia. Qed.

Lemma uint_digits_overflow max acc s :
  0 <= acc <= max -> all_digits s = true -> max < digits_value_acc acc s ->
  uint_digits max acc s = Err err_int_overflow.
Proof.
  revert acc. induction s as [| c s IH]; intros acc Hacc Hd Hv; simpl in *; [lia |].
  apply andb_prop in Hd as [Hc Hs]. rewrite Hc. simpl.
  pose proof (digit_val_range c Hc).
  destruct (max <? acc * 10) eqn:H1; [reflexivity |].
  destruct (max <? acc * 10 + digit_val c) eqn:H2; [reflexivity |].
  apply Z.ltb_ge in H1. apply Z.ltb_ge in H2. apply IH; [lia | exact Hs | exact Hv].
Qed.

Lemma parse_uint_digits max s :
  all_digits s = true -> s <> EmptyString -> parse_uint max s = uint_digits max 0 s.
Proof.
  intros Hd Hne. destruct s as [| c r]; [contradiction |].
  simpl in Hd. apply andb_prop in Hd as [Hc _]. unfold parse_uint.
  destruct (Ascii.eqb_spec c "+"%char) as [-> | Hp]; [discriminate |].
  destruct (Ascii.eqb_spec c "-"%char) as [-> | Hm]; [discriminate |].
  reflexivity.
Qed.

(** C7 fails as stated: [humidity=150] and [winddir=400] decode, outside
    the documented 0-100 and 0-359. *)
Lemma integer_fields_accept_out_of_documented_range :
  exists w, from_str "humidity=150&winddir=400" = Ok w /\
            humidity w = Some 150 /\ winddir w = Some 400.
Proof.
  exists (set_slot F_winddir (VInt 400) (set_slot F_humidity (VInt 150) WeatherData.default)).
  split; [vm_compute; reflexivity | split; reflexivity].
Qed.

(** C7, as the code has it: an integer field decodes exactly when its value
    is an optional [+] and a non-empty run of decimal digits whose value
    fits the declared type ([u8]: 0-255 for [humidity], [humidityin],
    [uv], [battout], [battin]; [u16]: 0-65535 for [winddir] and
    [winddir_avg10m]), and then holds that value; there is no other range
    check. *)
Theorem integer_fields_type_range (f : Field) (v : string) :
  field_kind f <> K_f32 ->
  ((exists w, from_pairs [(field_name f, v)] = Ok w) <->
   exists s, (v = s \/ v = String "+"%char s) /\ s <> EmptyString /\
             all_digits s = true /\ digits_value s <= kind_max (field_kind f)) /\
  (forall s, (v = s \/ v = String "+"%char s) -> s <> EmptyString -> all_digits s = true ->
     digits_value s <= kind_max (field_kind f) ->
     from_pairs [(field_name f, v)] =
       Ok (set_slot f (VInt (digits_value s)) WeatherData.default)) /\
  kind_max K_u8 = 255 /\ kind_max K_u16 = 65535.
Proof.
  intros Hk. rewrite from_pairs_single, (parse_value_int f v Hk).
  pose proof (kind_max_nonneg (field_kind f)) as Hmax.
  split; [split | split; [| split; reflexivity]].
  - intros [w Hw]. destruct (parse_uint _ v) as [n | e] eqn:Hp; [| discriminate].
    apply (parse_uint_ok _ v n Hmax) in Hp as (s & Hv & Hne & Hd & <- & Hle).
    exists s. split_all; assumption.
  - intros (s & Hv & Hne & Hd & Hle).
    rewrite (proj2 (parse_uint_ok _ v (digits_value s) Hmax)); [eexists; reflexivity |].
    exists s. split_all; auto.
  - intros s Hv Hne Hd Hle.
    rewrite (proj2 (parse_uint_ok _ v (digits_value s) Hmax)); [reflexivity |].
    exists s. split_all; auto.
Qed.

Lemma integer_fields_type_range_witness :
  field_kind F_humidity <> K_f32 /\ exists w, from_pairs [("humidity", "150")] = Ok w.
Proof.
  assert (Hk : field_kind F_humidity <> K_f32) by discriminate.
  split; [exact Hk |].
  apply (proj2 (proj1 (integer_fields_type_range F_humidity "150" Hk))).
  exists "150". split_all; [left; reflexivity | discriminate | reflexivity |].
  apply Z.leb_le. reflexivity.
Defined.

(** C10: an integer field whose digits exceed its type's maximum (255 for
    [u8], 65535 for [u16]) fails to decode, and the handler answers with a
    [ParseError] (400); up to the maximum it is stored as given. *)
Theorem integer_overflow_rejected :
  (forall f s, field_kind f <> K_f32 -> all_digits s = true -> s <> EmptyString ->
     ((exists e, from_pairs [(field_name f, s)] = Err e) <->
      kind_max (field_kind f) < digits_value s) /\
     (kind_max (field_kind f) < digits_value s ->
      from_pairs [(field_name f, s)] = Err err_int_overflow)) /\
  (forall c, handle_weather_data c [("humidity", "300")] = (Err (ParseError err_int_overflow), c)) /\
  (forall c, handle_weather_data c [("uv", "256")] = (Err (ParseError err_int_overflow), c)) /\
  (forall c, handle_weather_data c [("battout", "2000")] = (Err (ParseError err_int_overflow), c)) /\
  respond (Err (ParseError err_int_overflow)) =
    (400, "failed to parse weather data: number too large to fit in target type") /\
  from_str "humidity=255" = Ok (set_slot F_humidity (VInt 255) WeatherData.default) /\
  from_str "winddir=65535" = Ok (set_slot F_winddir (VInt 65535) WeatherData.default) /\
  from_str "winddir=65536" = Err err_int_overflow.
Proof.
  split; [| repeat split; try (intros c); vm_compute; reflexivity].
  intros f s Hk Hd Hne.
  rewrite from_pairs_single, (parse_value_int f s Hk), (parse_uint_digits _ s Hd Hne).
  pose proof (kind_max_nonneg (field_kind f)) as Hmax.
  assert (Hover : kind_max (field_kind f) < digits_value s ->
                  uint_digits (kind_max (field_kind f)) 0 s = Err err_int_overflow).
  { intros Hlt. apply uint_digits_overflow; [lia | exact Hd | exact Hlt]. }
  split; [split |].
  - intros [e He]. destruct (Z_lt_le_dec (kind_max (field_kind f)) (digits_value s)) as [Hlt | Hle];
      [exact Hlt | exfalso].
    assert (Hok : uint_digits (kind_max (field_kind f)) 0 s = Ok (digits_value s)).
    { apply uint_digits_ok; [lia | split_all; auto]. }
    rewrite Hok in He. discriminate.
  - intros Hlt. rewrite (Hover Hlt). eexists; reflexivity.
  - intros Hlt. rewrite (Hover Hlt). reflexivity.
Qed.

(** ** The handler *)

(** C8: when the query decodes and the registry is there, the handler
    answers ["ok"] (200) and the gauges are updated with the reading; when
    it does not decode, it answers 400 with the parse error's message and
    the registry is left exactly as it was (an absent registry gives 500,
    also with the registry untouched). *)
Theorem handle_weather_data_outcomes (c : MetricsCell) (params : list (string * string)) :
  match from_str (to_string params) with
  | Ok d =>
      match c with
      | Ok m =>
          handle_weather_data c params = (Ok "ok", Ok (Metrics.update m d)) /\
          respond (Ok "ok") = (200, "ok")
      | Err s =>
          handle_weather_data c params = (Err (MetricRegistrationError "global" (Msg s)), c) /\
          fst (respond (Err (MetricRegistrationError "global" (Msg s)))) = 500
      end
  | Err e =>
      handle_weather_data c params = (Err (ParseError e), c) /\
      respond (Err (ParseError e)) = (400, "failed to parse weather data: " ++ e)
  end.
Proof.
  unfold handle_weather_data.
  destruct (from_str (to_string params)) as [d | e]; [destruct c as [m | s] |]; split; reflexivity.
Qed.

(** ** Construction of the registry *)

Lemma gauge_new_name name help g : gauge_new name help = Ok g -> gname g = name.
Proof.
  unfold gauge_new. destruct (String.eqb help EmptyString); [discriminate |].
  destruct (negb (is_valid_metric_name name)); [discriminate |].
  intros H. injection H as <-. reflexivity.
Qed.

Lemma desc_set_opt {A} (g : Gauge) (o : option A) (conv : A -> f64) :
  desc (Metrics.set_opt g o conv) = desc g.
Proof. destruct o; reflexivity. Qed.

Lemma register_gauge_duplicate (r : Registry) (name help : string) :
  In name (map fst r) -> exists e, register_gauge name help r = Err (MetricRegistrationError name e).
Proof.
  intros Hin. unfold register_gauge.
  destruct (gauge_new name help) as [g | e] eqn:Hg; [| eexists; reflexivity].
  apply gauge_new_name in Hg.
  assert (Hex : existsb (fun d => String.eqb (fst d) (gname g)) r = true).
  { apply existsb_exists. apply in_map_iff in Hin as [[n h] [Hn Hin]].
    exists (n, h). split; [exact Hin |]. simpl in *. apply String.eqb_eq. congruence. }
  unfold registry_register. rewrite Hex. eexists; reflexivity.
Qed.

(** C6 fails as stated: the registry holds 21 gauges, not 22. *)
Lemma metrics_new_has_21_gauges :
  exists m, Metrics.new = Ok m /\
    List.length (Metrics.registry m) = 21%nat /\ List.length (Metrics.registry m) <> 22%nat.
Proof.
  destruct metrics_new_ok as [m E]. exists m. split; [exact E |].
  vm_compute in E. injection E as <-. split; [reflexivity | discriminate].
Qed.

(** C6, as the code has it: [Metrics::new] registers exactly 21 gauges,
    one per tracked field, each under its own name (no name twice), the
    registry's descriptors being the gauges' names and help texts, every
    gauge at [0.0]; [update] changes no name, help text or registration;
    and registering a name already present is a [MetricRegistrationError]
    carrying that name. *)
Theorem metrics_new_registers_each_once :
  (exists m, Metrics.new = Ok m /\
     List.length (Metrics.gauges m) = 21%nat /\
     List.length all_fields = 21%nat /\
     Metrics.registry m = map desc (Metrics.gauges m) /\
     NoDup (map fst (Metrics.registry m)) /\
     Forall (fun g => gval g = f64_zero) (Metrics.gauges m)) /\
  (forall m d, Metrics.registry (Metrics.update m d) = Metrics.registry m /\
               map desc (Metrics.gauges (Metrics.update m d)) = map desc (Metrics.gauges m)) /\
  (forall r name help, In name (map fst r) ->
     exists e, register_gauge name help r = Err (MetricRegistrationError name e)).
Proof.
  split; [| split; [| exact register_gauge_duplicate]].
  - destruct metrics_new_ok as [m E]. exists m. split; [exact E |].
    vm_compute in E. injection E as <-.
    split_all; [reflexivity | reflexivity | reflexivity | | repeat constructor].
    vm_compute. repeat constructor; simpl; intuition discriminate.
  - intros m d. split; [reflexivity |].
    unfold Metrics.update, Metrics.gauges. cbn [Metrics.temperature Metrics.humidity
      Metrics.wind_speed Metrics.wind_gust Metrics.max_daily_gust Metrics.wind_direction
      Metrics.wind_direction_avg Metrics.uv_index Metrics.solar_radiation Metrics.rain_hourly
      Metrics.rain_event Metrics.rain_daily Metrics.rain_weekly Metrics.rain_monthly
      Metrics.rain_yearly Metrics.temperature_indoor Metrics.humidity_indoor
      Metrics.barometer_relative Metrics.barometer_absolute Metrics.battery_outdoor
      Metrics.battery_indoor map].
    rewrite !desc_set_opt. reflexivity.
Qed.

(** ** The URL-encoding round trip of the handler *)

Lemma unreserved_chars (c : ascii) :
  (is_alnum c || Ascii.eqb c "*"%char || Ascii.eqb c "-"%char
   || Ascii.eqb c "."%char || Ascii.eqb c "_"%char)%bool = true ->
  Ascii.eqb c "+"%char = false /\ Ascii.eqb c "%"%char = false /\
  Ascii.eqb c "&"%char = false /\ Ascii.eqb c "="%char = false.
Proof.
  intros H.
  split_all;
    match goal with |- Ascii.eqb c ?t = false =>
      destruct (Ascii.eqb_spec c t) as [-> | _]; [vm_compute in H; discriminate | reflexivity]
    end.
Qed.

Lemma hex_upper_digit (d : Z) :
  0 <= d < 16 ->
  hex_val (hex_upper d) = Some d /\ Ascii.eqb (hex_upper d) "+"%char = false /\
  Ascii.eqb (hex_upper d) "&"%char = false /\ Ascii.eqb (hex_upper d) "="%char = false.
Proof.
  intros Hd.
  assert (H : all_from (fun d =>
     match hex_val (hex_upper d) with Some d' => d' =? d | None => false end &&
     negb (Ascii.eqb (hex_upper d) "+"%char) && negb (Ascii.eqb (hex_upper d) "&"%char) &&
     negb (Ascii.eqb (hex_upper d) "="%char))%bool 16 0 = true) by (vm_compute; reflexivity).
  pose proof (all_from_spec _ _ _ H d ltac:(simpl; lia)) as Hb. cbv beta in Hb.
  destruct (hex_val (hex_upper d)) as [d' |]; [| discriminate].
  apply andb_prop in Hb as [Hb H3]. apply andb_prop in Hb as [Hb H2].
  apply andb_prop in Hb as [H0 H1]. apply Z.eqb_eq in H0. subst d'.
  apply negb_true_iff in H1, H2, H3. auto.
Qed.

Lemma ascii_byte_split (c : ascii) :
  let n := Z.of_nat (nat_of_ascii c) in
  0 <= n / 16 < 16 /\ 0 <= n mod 16 < 16 /\
  ascii_of_nat (Z.to_nat (16 * (n / 16) + n mod 16)) = c.
Proof.
  intros n. pose proof (nat_ascii_bounded c) as Hb.
  assert (Hn : 0 <= n < 256) by (unfold n; lia).
  split; [| split]; [split; [apply Z.div_pos | apply Z.div_lt_upper_bound]; lia
                   | apply Z.mod_pos_bound; lia |].
  rewrite <- Z.div_mod by lia. unfold n. rewrite Nat2Z.id. apply ascii_nat_embedding.
Qed.

Lemma decode_byte_serialize (s : string) : decode_part (byte_serialize s) = s.
Proof.
  unfold decode_part. induction s as [| c s IH]; [reflexivity |].
  cbn [byte_serialize].
  destruct (Ascii.eqb c " "%char) eqn:Hsp.
  - apply Ascii.eqb_eq in Hsp. subst c. simpl. rewrite IH. reflexivity.
  - destruct (is_alnum c || _ || _ || _ || _)%bool eqn:Hu.
    + destruct (unreserved_chars c Hu) as (Hp & Hpc & _).
      simpl. rewrite Hp. simpl. rewrite Hpc, IH. reflexivity.
    + destruct (ascii_byte_split c) as (Hhi & Hlo & Hc).
      destruct (hex_upper_digit _ Hhi) as (Vh & Ph & _).
      destruct (hex_upper_digit _ Hlo) as (Vl & Pl & _).
      simpl replace_plus. rewrite Ph, Pl.
      cbn [percent_decode Ascii.eqb Bool.eqb andb]. rewrite Vh, Vl. cbv beta iota.
      rewrite Hc, IH. reflexivity.
Qed.

Lemma no_char_app (c : ascii) (a b : string) :
  no_char c (a ++ b) = (no_char c a && no_char c b)%bool.
Proof.
  induction a as [| x a IH]; [reflexivity |]. simpl. rewrite IH. apply andb_assoc.
Qed.

Lemma byte_serialize_no_sep (s : string) :
  no_char "&"%char (byte_serialize s) = true /\ no_char "="%char (byte_serialize s) = true.
Proof.
  induction s as [| c s [IH1 IH2]]; [split; reflexivity |].
  cbn [byte_serialize].
  destruct (Ascii.eqb c " "%char); [simpl; rewrite IH1, IH2; split; reflexivity |].
  destruct (is_alnum c || _ || _ || _ || _)%bool eqn:Hu.
  - destruct (unreserved_chars c Hu) as (_ & _ & Ha & He).
    simpl. rewrite Ha, He, IH1, IH2. split; reflexivity.
  - destruct (ascii_byte_split c) as (Hhi & Hlo & _).
    destruct (hex_upper_digit _ Hhi) as (_ & _ & Ah & Eh).
    destruct (hex_upper_digit _ Hlo) as (_ & _ & Al & El).
    simpl. rewrite Ah, Eh, Al, El, IH1, IH2. split; reflexivity.
Qed.

Lemma split_by_no_sep (sep : ascii) (a : string) :
  no_char sep a = true -> split_by sep a = [a].
Proof.
  induction a as [| x a IH]; [reflexivity |]. simpl. intros H.
  apply andb_prop in H as [Hx H]. apply negb_true_iff in Hx. rewrite Hx, (IH H). reflexivity.
Qed.

Lemma split_by_app (sep : ascii) (a b : string) :
  no_char sep a = true -> split_by sep (a ++ String sep b) = a :: split_by sep b.
Proof.
  induction a as [| x a IH]; intros H.
  - simpl. rewrite Ascii.eqb_refl. reflexivity.
  - simpl in *. apply andb_prop in H as [Hx H]. apply negb_true_iff in Hx.
    rewrite Hx, (IH H). reflexivity.
Qed.

Lemma split_first_app (sep : ascii) (a b : string) :
  no_char sep a = true -> split_first sep (a ++ String sep b) = (a, b).
Proof.
  induction a as [| x a IH]; intros H.
  - simpl. rewrite Ascii.eqb_refl. reflexivity.
  - simpl in *. apply andb_prop in H as [Hx H]. apply negb_true_iff in Hx.
    rewrite Hx, (IH H). reflexivity.
Qed.

Lemma split_by_concat (l : list string) :
  l <> [] -> Forall (fun x => no_char "&"%char x = true) l ->
  split_by "&"%char (String.concat "&" l) = l.
Proof.
  induction l as [| x l IH]; intros Hne Hl; [contradiction |].
  inversion Hl as [| ? ? Hx Hl']; subst.
  destruct l as [| y l].
  - simpl. apply split_by_no_sep. exact Hx.
  - change (String.concat "&" (x :: y :: l)) with (x ++ String "&" (String.concat "&" (y :: l))).
    rewrite (split_by_app _ _ _ Hx), IH; [reflexivity | discriminate | exact Hl'].
Qed.

(** The query string of a pair. *)
Lemma to_string_pieces (l : list (string * string)) :
  to_string l = String.concat "&"
    (map (fun p => byte_serialize (fst p) ++ String "=" (byte_serialize (snd p))) l).
Proof. unfold to_string. f_equal. apply map_ext. intros [k v]. reflexivity. Qed.

Lemma form_parse_pieces (l : list (string * string)) :
  map (fun p => let '(k, v) := split_first "="%char p in (decode_part k, decode_part v))
    (filter (fun p => negb (String.eqb p EmptyString))
       (map (fun p => byte_serialize (fst p) ++ String "=" (byte_serialize (snd p))) l)) = l.
Proof.
  induction l as [| [k v] l IH]; [reflexivity |].
  cbn [map filter fst snd].
  assert (Hne : String.eqb (byte_serialize k ++ String "=" (byte_serialize v)) EmptyString = false)
    by (destruct (byte_serialize k); reflexivity).
  rewrite Hne. cbn [negb map].
  rewrite split_first_app by exact (proj2 (byte_serialize_no_sep k)).
  rewrite IH, !decode_byte_serialize. reflexivity.
Qed.

Lemma form_parse_to_string (l : list (string * string)) : form_parse (to_string l) = l.
Proof.
  destruct l as [| p l]; [reflexivity |].
  unfold form_parse. rewrite to_string_pieces, split_by_concat.
  - apply form_parse_pieces.
  - simpl. discriminate.
  - apply Forall_forall. intros x Hx. apply in_map_iff in Hx as [[k v] [<- _]].
    simpl. rewrite no_char_app, (proj1 (byte_serialize_no_sep k)). simpl.
    exact (proj1 (byte_serialize_no_sep v)).
Qed.

Lemma from_str_to_string (l : list (string * string)) : from_str (to_string l) = from_pairs l.
Proof. unfold from_str. rewrite form_parse_to_string. reflexivity. Qed.

(** X1: the handler's round trip through [serde_urlencoded::to_string] and
    [from_str] is lossless: every component comes back byte for byte
    (spaces, [+], [&], [=], [%] included), the parsed pairs are exactly the
    pairs of the map, in its iteration order, so the decoder sees the query
    map the handler received. *)
Theorem query_round_trip :
  (forall s, decode_part (byte_serialize s) = s) /\
  (forall l, form_parse (to_string l) = l) /\
  (forall l, from_str (to_string l) = from_pairs l).
Proof.
  split; [exact decode_byte_serialize | split; [exact form_parse_to_string | exact from_str_to_string]].
Qed.

(** ** What a successful decoding holds *)

Lemma parse_value_ok_shape (k : Kind) (v : string) (x : Value) :
  parse_value k v = Ok x ->
  match k with K_f32 => exists y, x = VFloat y | _ => exists n, x = VInt n end.
Proof.
  destruct k; simpl;
    [destruct (parse_f32 v) | destruct (parse_uint u8_max v) | destruct (parse_uint u16_max v)];
    simpl; intros H; try discriminate; injection H as <-; eauto.
Qed.

Lemma get_set_same (f : Field) (v : string) (x : Value) (w : WeatherData.t) :
  parse_value (field_kind f) v = Ok x -> get_slot f (set_slot f x w) = Some x.
Proof.
  intros H. apply parse_value_ok_shape in H.
  destruct f; simpl in H; destruct H as [y ->]; reflexivity.
Qed.

Lemma filter_other_keys (k : string) (m : list (string * string)) :
  ~ In k (map fst m) -> filter (fun p => negb (String.eqb (fst p) k)) m = m.
Proof.
  induction m as [| [k' v'] m IH]; intros H; [reflexivity |].
  simpl in *. destruct (String.eqb_spec k' k) as [-> | Hne].
  - exfalso. apply H. left. reflexivity.
  - simpl. rewrite IH; [reflexivity | tauto].
Qed.

Lemma field_name_inj (f g : Field) : field_name f = field_name g -> f = g.
Proof.
  intros H. pose proof (field_of_key_field_name f) as Hf.
  rewrite H, field_of_key_field_name in Hf. injection Hf as ->. reflexivity.
Qed.

Lemma visit_map_ok_spec (l : list (string * string)) (w w' : WeatherData.t) :
  NoDup (map fst l) -> slots_free l w ->
  (forall k, In k (map fst (extra w)) -> ~ In k (map fst l)) ->
  visit_map l w = Ok w' ->
  (forall f v, In (field_name f, v) l ->
     exists x, parse_value (field_kind f) v = Ok x /\ get_slot f w' = Some x) /\
  (forall f, ~ In (field_name f) (map fst l) -> get_slot f w' = get_slot f w) /\
  (forall k v, In (k, v) (extra w') <-> (In (k, v) l /\ recognized k = false) \/ In (k, v) (extra w)).
Proof.
  revert w. induction l as [| [k v] l IH]; intros w Hnd Hfree Hdis H; simpl in H.
  - injection H as <-. split; [intros f v [] | split; [reflexivity |]].
    intros k v. simpl. tauto.
  - assert (Hk_notin : ~ In k (map fst l)) by (inversion Hnd; assumption).
    assert (Hnd' : NoDup (map fst l)) by (inversion Hnd; assumption).
    destruct (field_of_key k) as [f0 |] eqn:Hk.
    + rewrite (Hfree k v f0 (or_introl eq_refl) Hk) in H.
      destruct (parse_value (field_kind f0) v) as [x | e] eqn:Hp; simpl in H; [| discriminate].
      assert (Hdis' : forall k', In k' (map fst (extra (set_slot f0 x w))) -> ~ In k' (map fst l)).
      { intros k' Hin Hl. rewrite extra_set_slot in Hin. apply (Hdis k' Hin). right. exact Hl. }
      destruct (IH _ Hnd' (slots_free_step k v l f0 x w Hnd Hk Hfree) Hdis' H) as (I1 & I2 & I3).
      pose proof (field_of_key_name k f0 Hk) as Hn.
      split; [| split].
      * intros f v' [Heq | Hin]; [| exact (I1 f v' Hin)].
        injection Heq as Hkf <-. rewrite Hkf in Hn. apply field_name_inj in Hn. subst f0.
        exists x. split; [exact Hp |].
        rewrite I2 by (rewrite <- Hkf; exact Hk_notin). exact (get_set_same f v x w Hp).
      * intros f Hnot. rewrite I2 by (intros Hin; apply Hnot; right; exact Hin).
        apply get_set_other. intros ->. apply Hnot. left. exact (eq_sym Hn).
      * intros k' v'. rewrite I3, extra_set_slot. split.
        -- intros [[Hin Hr] | Hex]; [left; split; [right; exact Hin | exact Hr] | right; exact Hex].
        -- intros [[[Heq | Hin] Hr] | Hex]; [| left; split; assumption | right; exact Hex].
           injection Heq as <- <-. unfold recognized in Hr. rewrite Hk in Hr. discriminate.
    + set (w1 := with_extra (hm_insert k v (extra w)) w) in H.
      assert (Hk_ex : ~ In k (map fst (extra w))).
      { intros Hin. apply (Hdis k Hin). left. reflexivity. }
      assert (Hex1 : extra w1 = (k, v) :: extra w).
      { unfold w1, hm_insert. simpl. rewrite (filter_other_keys k _ Hk_ex). reflexivity. }
      assert (Hdis' : forall k', In k' (map fst (extra w1)) -> ~ In k' (map fst l)).
      { rewrite Hex1. intros k' [<- | Hin] Hl; [exact (Hk_notin Hl) |].
        apply (Hdis k' Hin). right. exact Hl. }
      destruct (IH _ Hnd' (slots_free_skip k v l _ w Hfree) Hdis' H) as (I1 & I2 & I3).
      split; [| split].
      * intros f v' [Heq | Hin]; [| exact (I1 f v' Hin)].
        injection Heq as Hkf _. subst k. rewrite field_of_key_field_name in Hk. discriminate.
      * intros f Hnot. rewrite I2 by (intros Hin; apply Hnot; right; exact Hin).
        apply get_slot_with_extra.
      * intros k' v'. rewrite I3. change (extra (with_extra (hm_insert k v (extra w)) w)) with (extra w1). rewrite Hex1. split.
        -- intros [[Hin Hr] | [Heq | Hex]]; [left; split; [right; exact Hin | exact Hr] | | right; exact Hex].
           injection Heq as <- <-. left. split; [left; reflexivity |].
           unfold recognized. rewrite Hk. reflexivity.
        -- intros [[[Heq | Hin] Hr] | Hex]; [right; left; exact Heq | left; split; assumption | right; right; exact Hex].
Qed.

Lemma from_pairs_ok_spec (l : list (string * string)) (w : WeatherData.t) :
  NoDup (map fst l) -> from_pairs l = Ok w ->
  (forall f v, In (field_name f, v) l ->
     exists x, parse_value (field_kind f) v = Ok x /\ get_slot f w = Some x) /\
  (forall f, ~ In (field_name f) (map fst l) -> get_slot f w = None) /\
  (forall k v, In (k, v) (extra w) <-> In (k, v) l /\ recognized k = false).
Proof.
  intros Hnd H.
  destruct (visit_map_ok_spec l _ w Hnd (slots_free_default l) (fun k Hin => match Hin with end) H)
    as (I1 & I2 & I3).
  split; [exact I1 | split].
  - intros f Hnot. rewrite (I2 f Hnot). apply get_slot_default.
  - intros k v. rewrite I3. simpl. tauto.
Qed.

(** X2: decoding a map (distinct keys) that succeeds gives every recognised
    key's field the value its parser reads, leaves every field whose key is
    absent [None], and keeps in [extra] exactly the pairs of the
    unrecognised keys. *)
Theorem decode_map_fields (l : list (string * string)) (w : WeatherData.t) :
  NoDup (map fst l) -> from_pairs l = Ok w ->
  (forall f v, In (field_name f, v) l ->
     exists x, parse_value (field_kind f) v = Ok x /\ get_slot f w = Some x) /\
  (forall f, ~ In (field_name f) (map fst l) -> get_slot f w = None) /\
  (forall k v, In (k, v) (extra w) <-> In (k, v) l /\ recognized k = false).
Proof. exact (from_pairs_ok_spec l w). Qed.

Lemma decode_map_fields_witness :
  NoDup (map fst sample_query) /\
  from_pairs sample_query =
    Ok (set_slot F_humidity (VInt 45)
          (set_slot F_tempf (VFloat (f32_lit "72.5"))
             (with_extra [("stationtype", "AMBWeatherV4.2.9")] WeatherData.default))) /\
  get_slot F_uv (set_slot F_humidity (VInt 45)
          (set_slot F_tempf (VFloat (f32_lit "72.5"))
             (with_extra [("stationtype", "AMBWeatherV4.2.9")] WeatherData.default))) = None.
Proof.
  assert (Hnd : NoDup (map fst sample_query)) by (repeat constructor; simpl; intuition discriminate).
  assert (Hd : from_pairs sample_query =
    Ok (set_slot F_humidity (VInt 45)
          (set_slot F_tempf (VFloat (f32_lit "72.5"))
             (with_extra [("stationtype", "AMBWeatherV4.2.9")] WeatherData.default))))
    by (vm_compute; reflexivity).
  split; [exact Hnd | split; [exact Hd |]].
  apply (proj1 (proj2 (decode_map_fields sample_query _ Hnd Hd))).
  simpl. intuition discriminate.
Defined.

Lemma option_map_inj {A B} (c : A -> B) (o1 o2 : option A) :
  (forall a b, c a = c b -> a = b) -> option_map c o1 = option_map c o2 -> o1 = o2.
Proof.
  intros Hc H. destruct o1, o2; simpl in H; try discriminate; [| reflexivity].
  injection H as H. f_equal. exact (Hc _ _ H).
Qed.

Lemma VFloat_inj (a b : f32) : VFloat a = VFloat b -> a = b.
Proof. intros H. injection H as H. exact H. Qed.

Lemma VInt_inj (a b : Z) : VInt a = VInt b -> a = b.
Proof. intros H. injection H as H. exact H. Qed.

(** Readings with the same slots have the same typed part. *)
Lemma slots_eq_strip (w1 w2 : WeatherData.t) :
  (forall f, get_slot f w1 = get_slot f w2) -> strip_extra w1 = strip_extra w2.
Proof.
  intros H.
  pose proof (option_map_inj VFloat _ _ VFloat_inj (H F_tempf)) as E1.
  pose proof (option_map_inj VInt _ _ VInt_inj (H F_humidity)) as E2.
  pose proof (option_map_inj VFloat _ _ VFloat_inj (H F_windspeedmph)) as E3.
  pose proof (option_map_inj VFloat _ _ VFloat_inj (H F_windgustmph)) as E4.
  pose proof (option_map_inj VFloat _ _ VFloat_inj (H F_maxdailygust)) as E5.
  pose proof (option_map_inj VInt _ _ VInt_inj (H F_winddir)) as E6.
  pose proof (option_map_inj VInt _ _ VInt_inj (H F_winddir_avg10m)) as E7.
  pose proof (option_map_inj VInt _ _ VInt_inj (H F_uv)) as E8.
  pose proof (option_map_inj VFloat _ _ VFloat_inj (H F_solarradiation)) as E9.
  pose proof (option_map_inj VFloat _ _ VFloat_inj (H F_hourlyrainin)) as E10.
  pose proof (option_map_inj VFloat _ _ VFloat_inj (H F_eventrainin)) as E11.
  pose proof (option_map_inj VFloat _ _ VFloat_inj (H F_dailyrainin)) as E12.
  pose proof (option_map_inj VFloat _ _ VFloat_inj (H F_weeklyrainin)) as E13.
  pose proof (option_map_inj VFloat _ _ VFloat_inj (H F_monthlyrainin)) as E14.
  pose proof (option_map_inj VFloat _ _ VFloat_inj (H F_yearlyrainin)) as E15.
  pose proof (option_map_inj VFloat _ _ VFloat_inj (H F_tempinf)) as E16.
  pose proof (option_map_inj VInt _ _ VInt_inj (H F_humidityin)) as E17.
  pose proof (option_map_inj VFloat _ _ VFloat_inj (H F_baromrelin)) as E18.
  pose proof (option_map_inj VFloat _ _ VFloat_inj (H F_baromabsin)) as E19.
  pose proof (option_map_inj VInt _ _ VInt_inj (H F_battout)) as E20.
  pose proof (option_map_inj VInt _ _ VInt_inj (H F_battin)) as E21.
  unfold strip_extra, with_extra.
  rewrite E1, E2, E3, E4, E5, E6, E7, E8, E9, E10, E11, E12, E13, E14, E15, E16, E17, E18, E19, E20, E21. reflexivity.
Qed.

(** On a map, decoding succeeds exactly when every recognised value parses. *)
Lemma decode_ok_iff_values_parse (l : list (string * string)) :
  NoDup (map fst l) ->
  (exists w, from_pairs l = Ok w) <->
  (forall k v f, In (k, v) l -> field_of_key k = Some f ->
     exists x, parse_value (field_kind f) v = Ok x).
Proof.
  intros Hnd. split.
  - intros [w H] k v f Hin Hk.
    destruct (from_pairs_ok_spec l w Hnd H) as [I1 _].
    rewrite <- (field_of_key_name k f Hk) in Hin.
    destruct (I1 f v Hin) as (x & Hx & _). eauto.
  - intros Hall. destruct (from_pairs l) as [w | e] eqn:H; [eauto |].
    destruct (visit_map_err_source l _ e Hnd (slots_free_default l) H)
      as (k & v & f & Hin & Hk & Hp).
    destruct (Hall k v f Hin Hk) as [x Hx]. congruence.
Qed.

(** X3: the handler's [HashMap] has no fixed iteration order, and the
    order does not matter: for two orders of the same map, decoding
    succeeds for both or for neither, and two successes give the same typed
    fields and the same [extra] pairs. *)
Theorem decode_order_independent (l l' : list (string * string)) :
  NoDup (map fst l) -> Permutation l l' ->
  ((exists w, from_pairs l = Ok w) <-> (exists w', from_pairs l' = Ok w')) /\
  (forall w w', from_pairs l = Ok w -> from_pairs l' = Ok w' ->
     strip_extra w = strip_extra w' /\ (forall k v, In (k, v) (extra w) <-> In (k, v) (extra w'))).
Proof.
  intros Hnd Hp.
  assert (Hnd' : NoDup (map fst l')) by exact (Permutation_NoDup (Permutation_map fst Hp) Hnd).
  split.
  - rewrite (decode_ok_iff_values_parse l Hnd), (decode_ok_iff_values_parse l' Hnd').
    split; intros Hall k v f Hin Hk; apply (Hall k v f); try exact Hk.
    + apply (Permutation_in _ (Permutation_sym Hp) Hin).
    + apply (Permutation_in _ Hp Hin).
  - intros w w' H H'.
    destruct (from_pairs_ok_spec l w Hnd H) as (A1 & A2 & A3).
    destruct (from_pairs_ok_spec l' w' Hnd' H') as (B1 & B2 & B3).
    split.
    + apply slots_eq_strip. intros f.
      destruct (in_dec string_dec (field_name f) (map fst l)) as [Hin | Hnot].
      * apply in_map_iff in Hin as [[k v] [Hk Hin]]. simpl in Hk. subst k.
        destruct (A1 f v Hin) as (x & Hx & ->).
        destruct (B1 f v (Permutation_in _ Hp Hin)) as (x' & Hx' & ->). congruence.
      * rewrite (A2 f Hnot), (B2 f); [reflexivity |].
        intros Hin. apply Hnot. exact (Permutation_in _ (Permutation_map fst (Permutation_sym Hp)) Hin).
    + intros k v. rewrite A3, B3. split; intros [Hin Hr]; split; try exact Hr.
      * exact (Permutation_in _ Hp Hin).
      * exact (Permutation_in _ (Permutation_sym Hp) Hin).
Qed.

Lemma decode_order_independent_witness :
  NoDup (map fst sample_query) /\
  Permutation sample_query (rev sample_query) /\
  strip_extra (set_slot F_humidity (VInt 45)
          (set_slot F_tempf (VFloat (f32_lit "72.5"))
             (with_extra [("stationtype", "AMBWeatherV4.2.9")] WeatherData.default))) =
  strip_extra (set_slot F_tempf (VFloat (f32_lit "72.5"))
          (set_slot F_humidity (VInt 45)
             (with_extra [("stationtype", "AMBWeatherV4.2.9")] WeatherData.default))).
Proof.
  assert (Hnd : NoDup (map fst sample_query)) by (repeat constructor; simpl; intuition discriminate).
  assert (Hp : Permutation sample_query (rev sample_query)) by apply Permutation_rev.
  split; [exact Hnd | split; [exact Hp |]].
  apply (proj2 (decode_order_independent sample_query (rev sample_query) Hnd Hp));
    vm_compute; reflexivity.
Defined.

(** ** Repeated keys *)

Lemma visit_map_app (l1 l2 : list (string * string)) (w : WeatherData.t) :
  visit_map (l1 ++ l2) w = (w1 <- visit_map l1 w ;; visit_map l2 w1).
Proof.
  revert w. induction l1 as [| [k v] l1 IH]; intros w; [reflexivity |].
  simpl. destruct (field_of_key k) as [f |]; [| apply IH].
  destruct (get_slot f w); [reflexivity |].
  destruct (parse_value (field_kind f) v); [apply IH | reflexivity].
Qed.

Lemma get_slot_set_filled (f g : Field) (x : Value) (w : WeatherData.t) :
  get_slot g w <> None -> get_slot g (set_slot f x w) <> None.
Proof.
  destruct (Field_eq_dec f g) as [-> | Hne]; [| rewrite get_set_other by exact Hne; auto].
  destruct g, x; simpl; intros Hg; solve [exact Hg | discriminate].
Qed.

Lemma visit_map_keeps_filled (l : list (string * string)) (w w' : WeatherData.t) (g : Field) :
  visit_map l w = Ok w' -> get_slot g w <> None -> get_slot g w' <> None.
Proof.
  revert w. induction l as [| [k v] l IH]; intros w H Hg; simpl in H.
  - injection H as <-. exact Hg.
  - destruct (field_of_key k) as [f |].
    + destruct (get_slot f w); [discriminate |].
      destruct (parse_value (field_kind f) v) as [x |]; simpl in H; [| discriminate].
      exact (IH _ H (get_slot_set_filled f g x w Hg)).
    + apply (IH _ H). rewrite get_slot_with_extra. exact Hg.
Qed.

Lemma visit_map_fills (l : list (string * string)) (w w' : WeatherData.t) (f : Field) (v : string) :
  visit_map l w = Ok w' -> In (field_name f, v) l -> get_slot f w' <> None.
Proof.
  revert w. induction l as [| [k v0] l IH]; intros w H Hin; [destruct Hin |]. simpl in H.
  destruct Hin as [Heq | Hin].
  - injection Heq as -> ->. rewrite field_of_key_field_name in H.
    destruct (get_slot f w); [discriminate |].
    destruct (parse_value (field_kind f) v) as [x |] eqn:Hp; simpl in H; [| discriminate].
    apply (visit_map_keeps_filled _ _ _ f H). rewrite (get_set_same f v x w Hp). discriminate.
  - destruct (field_of_key k) as [g |].
    + destruct (get_slot g w); [discriminate |].
      destruct (parse_value (field_kind g) v0) as [x |]; simpl in H; [| discriminate].
      exact (IH _ H Hin).
    + exact (IH _ H Hin).
Qed.

(** X4: a recognised key that occurs a second time makes decoding fail,
    even with the same value: the error is [duplicate field `key`] as soon
    as everything before the second occurrence decodes. *)
Theorem decode_rejects_repeated_key (l1 l2 : list (string * string)) (f : Field) (v : string) :
  In (field_name f) (map fst l1) ->
  exists e, from_pairs (l1 ++ (field_name f, v) :: l2) = Err e /\
    (forall w, from_pairs l1 = Ok w -> e = duplicate_field (field_name f)).
Proof.
  intros Hin. apply in_map_iff in Hin as [[k v0] [Hk Hin]]. simpl in Hk. subst k.
  unfold from_pairs. rewrite visit_map_app.
  destruct (visit_map l1 WeatherData.default) as [w | e] eqn:E; simpl.
  - rewrite field_of_key_field_name.
    destruct (get_slot f w) eqn:Hs; [| exfalso; exact (visit_map_fills _ _ _ f v0 E Hin Hs)].
    exists (duplicate_field (field_name f)). split; [reflexivity | intros; reflexivity].
  - exists e. split; [reflexivity | intros w H; discriminate].
Qed.

Lemma decode_rejects_repeated_key_witness :
  In (field_name F_tempf) (map fst [("tempf", "72.5")]) /\
  from_str "tempf=72.5&tempf=72.5" = Err "duplicate field `tempf`".
Proof.
  assert (Hin : In (field_name F_tempf) (map fst [("tempf", "72.5")])) by (left; reflexivity).
  split; [exact Hin |].
  destruct (decode_rejects_repeated_key [("tempf", "72.5")] [] F_tempf "72.5" Hin) as (e & He & Hd).
  change (from_pairs ([("tempf", "72.5")] ++ [(field_name F_tempf, "72.5")]) =
    Err "duplicate field `tempf`").
  rewrite He. f_equal. apply Hd with (w := set_slot F_tempf (VFloat (f32_lit "72.5")) WeatherData.default).
  vm_compute. reflexivity.
Defined.

(** ** Successive updates *)

Lemma set_opt_twice {A} (g : Gauge) (o1 o2 : option A) (conv : A -> f64) :
  Metrics.set_opt (Metrics.set_opt g o1 conv) o2 conv = Metrics.set_opt g (or_else o2 o1) conv.
Proof. destruct o1, o2; reflexivity. Qed.

Lemma or_else_same {A} (o : option A) : or_else o o = o.
Proof. destruct o; reflexivity. Qed.

(** X5: two readings applied one after the other leave the gauges as the
    single reading that takes each field from the later reading where it
    is present and from the earlier one otherwise; in particular applying
    the same reading twice is the same as applying it once. *)
Theorem update_twice (m : Metrics.t) (d1 d2 : WeatherData.t) :
  Metrics.update (Metrics.update m d1) d2 = Metrics.update m (overlay d1 d2) /\
  Metrics.update (Metrics.update m d1) d1 = Metrics.update m d1.
Proof.
  assert (H : forall d1 d2, Metrics.update (Metrics.update m d1) d2 = Metrics.update m (overlay d1 d2)).
  { intros e1 e2. unfold Metrics.update, overlay. simpl. rewrite !set_opt_twice. reflexivity. }
  split; [apply H |]. rewrite H. destruct d1. unfold overlay. simpl.
  rewrite !or_else_same. reflexivity.
Qed.

(** ** Start-up *)

(** X6: the registry built at start-up is always there: [main]'s start-up
    check passes, and from then on every [/push/] request answers [200 ok]
    or [400] with a parse error, never [500], and leaves a registry in
    place. *)
Theorem startup_and_push_never_500 :
  main_init metrics_cell_init = Ok tt /\
  (exists m0, metrics_cell_init = Ok m0) /\
  (forall m l,
     (exists m', snd (handle_weather_data (Ok m) l) = Ok m') /\
     (respond (fst (handle_weather_data (Ok m) l)) = (200, "ok") \/
      exists e, fst (handle_weather_data (Ok m) l) = Err (ParseError e) /\
                respond (fst (handle_weather_data (Ok m) l)) =
                  (400, "failed to parse weather data: " ++ e))).
Proof.
  destruct metrics_new_ok as [m0 E].
  assert (Hc : metrics_cell_init = Ok m0) by (unfold metrics_cell_init; rewrite E; reflexivity).
  split; [rewrite Hc; reflexivity | split; [exists m0; exact Hc |]].
  intros m l. unfold handle_weather_data.
  destruct (from_str (to_string l)) as [d | e]; simpl.
  - split; [eexists; reflexivity | left; reflexivity].
  - split; [eexists; reflexivity | right; exists e; split; reflexivity].
Qed.

(** ** Rounding is symmetric about zero *)

Lemma binary_round_aux_opp (prec emax : Z) sx mx ex lx :
  binary_round_aux prec emax (negb sx) mx ex lx = SFopp (binary_round_aux prec emax sx mx ex lx).
Proof.
  unfold binary_round_aux.
  destruct (shr_fexp prec emax mx ex lx) as [mrs' e'].
  match goal with |- context [shr_fexp prec emax ?a e' loc_Exact] => destruct (shr_fexp prec emax a e' loc_Exact) as [mrs'' e''] end.
  destruct (shr_m mrs'') as [| m | m]; [reflexivity | | reflexivity].
  destruct (e'' <=? emax - prec); reflexivity.
Qed.

Lemma binary_round_opp (prec emax : Z) s m e :
  binary_round prec emax (negb s) m e = SFopp (binary_round prec emax s m e).
Proof.
  unfold binary_round.
  match goal with |- context [shl_align ?a ?b ?c] => destruct (shl_align a b c) end.
  apply binary_round_aux_opp.
Qed.

Lemma f64_from_f32_opp (x : f32) : f64_from_f32 (SFopp x) = SFopp (f64_from_f32 x).
Proof. destruct x; simpl; try reflexivity. apply binary_round_opp. Qed.

Lemma xorb_negb_l' (a b : bool) : xorb (negb a) b = negb (xorb a b).
Proof. destruct a, b; reflexivity. Qed.

Lemma f64_mul_opp_l (x y : f64) : f64_mul (SFopp x) y = SFopp (f64_mul x y).
Proof.
  unfold f64_mul. destruct x, y; cbn [SFopp SFmul]; rewrite ?xorb_negb_l'; try reflexivity.
  apply binary_round_aux_opp.
Qed.

Lemma f64_div_opp_l (x y : f64) : f64_div (SFopp x) y = SFopp (f64_div x y).
Proof.
  unfold f64_div. destruct x, y; cbn [SFopp SFdiv]; rewrite ?xorb_negb_l'; try reflexivity.
  match goal with |- context [SFdiv_core_binary ?p ?q ?a ?b ?c ?d] =>
    destruct (SFdiv_core_binary p q a b c d) as [[mz ez] lz] end.
  apply binary_round_aux_opp.
Qed.

Lemma f64_round_opp (x : f64) : f64_round (SFopp x) = SFopp (f64_round x).
Proof.
  destruct x as [s | s | | s m e]; try reflexivity.
  destruct e as [| p | k]; try reflexivity.
  unfold f64_round. cbn [SFopp].
  destruct s, (round_half_up_mag (Zpos m) (Zpos k)) as [| q | q];
    cbn [negb cond_Zopp Z.opp binary_normalize SFopp]; try reflexivity;
    first [ exact (binary_round_opp prec64 emax64 true q 0)
          | exact (binary_round_opp prec64 emax64 false q 0)
          | symmetry; rewrite <- (binary_round_opp prec64 emax64 true q 0); reflexivity
          | symmetry; rewrite <- (binary_round_opp prec64 emax64 false q 0); reflexivity ].
Qed.

Lemma sign_split (c : ascii) (r : string) :
  Ascii.eqb c "+"%char = false -> Ascii.eqb c "-"%char = false ->
  match String c r with
  | String "+"%char r' => (false, r')
  | String "-"%char r' => (true, r')
  | _ => (false, String c r)
  end = (false, String c r).
Proof.
  intros Hp Hm.
  destruct c as [[|] [|] [|] [|] [|] [|] [|] [|]]; try reflexivity; discriminate.
Qed.

Lemma decimal_to_float_opp (prec emax : Z) (m e : Z) :
  decimal_to_float prec emax true m e = SFopp (decimal_to_float prec emax false m e).
Proof.
  unfold decimal_to_float.
  destruct (m =? 0); [reflexivity |].
  destruct (0 <=? e).
  - cbn [cond_Zopp]. destruct (m * 10 ^ e) as [| q | q]; cbn [Z.opp binary_normalize SFopp];
      [reflexivity | exact (binary_round_opp prec emax false q 0)
      | symmetry; rewrite <- (binary_round_opp prec emax true q 0); reflexivity].
  - destruct (SFdiv_core_binary prec emax m 0 (10 ^ (- e)) 0) as [[q x] l].
    exact (binary_round_aux_opp prec emax false q x l).
Qed.

(** X7: readings are treated the same on both sides of zero: a value
    written with a leading [-] parses to exactly the negation of the value
    written without it, and [round] commutes with negation (halfway cases
    go away from zero on both sides), so a negative temperature is stored
    as the exact negation of the corresponding positive one. *)
Theorem negative_readings_symmetric :
  (forall c r, Ascii.eqb c "+"%char = false -> Ascii.eqb c "-"%char = false ->
     parse_f32 (String "-" (String c r)) = result_map SFopp (parse_f32 (String c r))) /\
  (forall x d, round (SFopp x) d = SFopp (round x d)).
Proof.
  split.
  - intros c r Hp Hm. unfold parse_f32, parse_float. rewrite (sign_split c r Hp Hm).
    destruct (_ || _)%bool; [reflexivity |].
    destruct (String.eqb _ "nan"); [reflexivity |].
    destruct (parse_number (String c r)) as [[m e] |]; [| reflexivity].
    simpl. f_equal. apply decimal_to_float_opp.
  - intros x d. unfold round.
    rewrite f64_from_f32_opp, f64_mul_opp_l, f64_round_opp, f64_div_opp_l. reflexivity.
Qed.

(** ** Values that are not numbers *)

Lemma powi_ten_finite (d : Z) :
  0 <= d <= 255 -> exists m e, f64_powi f64_ten d = S754_finite false m e.
Proof.
  intros Hd.
  assert (H : all_from (fun d => match f64_powi f64_ten d with
                                 | S754_finite false _ _ => true
                                 | _ => false end) 256 0 = true) by (vm_compute; reflexivity).
  pose proof (all_from_spec _ _ _ H d ltac:(simpl; lia)) as Hb. cbv beta in Hb. clear H.
  destruct (f64_powi f64_ten d) as [s | s | | [|] m e]; try discriminate Hb. eauto.
Qed.

Lemma parse_f32_word (s w : string) :
  lower s = w -> w <> EmptyString ->
  Ascii.eqb (match w with String c _ => c | EmptyString => " "%char end) "+"%char = false ->
  Ascii.eqb (match w with String c _ => c | EmptyString => " "%char end) "-"%char = false ->
  parse_f32 s =
    if (String.eqb w "inf" || String.eqb w "infinity")%bool then Ok (S754_infinity false)
    else if String.eqb w "nan" then Ok S754_nan
    else match parse_number s with
         | Some (m, e) => Ok (decimal_to_float prec32 emax32 false m e)
         | None => Err err_float_invalid
         end.
Proof.
  intros Hs Hw Hp Hm. destruct s as [| c r]; [subst w; contradiction |].
  assert (Hc : forall t, lower_ascii t = t -> Ascii.eqb (lower_ascii t) (lower_ascii c) = false ->
                 Ascii.eqb c t = false).
  { intros t Ht Hne. destruct (Ascii.eqb_spec c t) as [-> | _]; [| reflexivity].
    rewrite Ascii.eqb_refl in Hne. discriminate. }
  simpl in Hs. subst w.
  unfold parse_f32, parse_float.
  rewrite (sign_split c r); [reflexivity | |]; apply Hc; try reflexivity; assumption.
Qed.

(** X8: a float field accepts [nan], [inf] and [infinity] in any case (and
    [-inf], [-infinity]), which decode to NaN and the infinities, and
    [round] passes NaN, both infinities and both zeros through unchanged
    for every [u8] precision, so such a reading is stored in the gauge as
    it came. *)
Theorem non_finite_readings :
  (forall f s, field_kind f = K_f32 -> lower s = "nan" ->
     from_pairs [(field_name f, s)] = Ok (set_slot f (VFloat S754_nan) WeatherData.default)) /\
  (forall f s, field_kind f = K_f32 -> (lower s = "inf" \/ lower s = "infinity") ->
     from_pairs [(field_name f, s)] =
       Ok (set_slot f (VFloat (S754_infinity false)) WeatherData.default) /\
     from_pairs [(field_name f, String "-" s)] =
       Ok (set_slot f (VFloat (S754_infinity true)) WeatherData.default)) /\
  (forall d, round S754_nan d = S754_nan) /\
  (forall d b, 0 <= d <= 255 ->
     round (S754_infinity b) d = S754_infinity b /\ round (S754_zero b) d = S754_zero b).
Proof.
  split; [| split; [| split]].
  - intros f s Hk Hs. rewrite from_pairs_single, Hk. simpl.
    rewrite (parse_f32_word s "nan" Hs ltac:(discriminate) eq_refl eq_refl). reflexivity.
  - intros f s Hk Hs. rewrite !from_pairs_single, Hk. simpl.
    destruct Hs as [Hs | Hs];
      (rewrite (parse_f32_word s _ Hs ltac:(discriminate) eq_refl eq_refl);
       split; [reflexivity |];
       unfold parse_f32, parse_float; cbn beta iota; rewrite Hs; reflexivity).
  - intros d. reflexivity.
  - intros d b Hd. destruct (powi_ten_finite d Hd) as (m & e & He).
    unfold round. rewrite He. destruct b; split; reflexivity.
Qed.

(** ** Empty values *)

(** X9: a recognised key with an empty value ([tempf=], or a bare [tempf])
    is not an absent field: decoding fails with the parser's empty-string
    message, and the handler answers [400] with it. *)
Theorem empty_value_rejected (f : Field) (c : MetricsCell) :
  let e := match field_kind f with K_f32 => err_float_empty | _ => err_int_empty end in
  from_pairs [(field_name f, "")] = Err e /\
  from_str (field_name f ++ "=") = Err e /\
  from_str (field_name f) = Err e /\
  handle_weather_data c [(field_name f, "")] = (Err (ParseError e), c) /\
  respond (fst (handle_weather_data c [(field_name f, "")])) =
    (400, "failed to parse weather data: " ++ e).
Proof.
  intros e.
  assert (H : from_pairs [(field_name f, "")] = Err e) by (subst e; destruct f; vm_compute; reflexivity).
  assert (Hh : handle_weather_data c [(field_name f, "")] = (Err (ParseError e), c)).
  { unfold handle_weather_data. rewrite from_str_to_string, H. reflexivity. }
  split_all; [exact H | | | exact Hh | rewrite Hh; reflexivity];
    subst e; destruct f; vm_compute; reflexivity.
Qed.
